(** * video-note: the chunked-summarization pipeline of [main.go]

    A shallow embedding of the pure parts of [main.go] (the chunker, the
    ratio checks, the default output paths) and of the effectful
    [summarizeText] over an explicit file system and an explicit order of
    completion of its goroutines.

    Go strings are byte sequences: they are [string]s here, one [ascii] per
    byte, [len] is the number of bytes and [s[i:j]] is a byte slice.  Go's
    [int] is taken at its 64-bit width, with the wrap-around of [+] written
    out.  [float64] values are [spec_float]s at precision 53. *)

From Stdlib Require Import ZArith Lia Bool Ascii SpecFloat.
From stdpp Require Import gmap strings list.

Local Open Scope Z_scope.

(** ** Go strings and machine integers *)

Module GoString.

(** [len(s)]: the number of bytes. *)
Definition len (s : string) : Z := Z.of_nat (String.length s).

(** [s[i:j]], for [0 <= i <= j <= len(s)]. *)
Definition slice (s : string) (i j : Z) : string :=
  String.substring (Z.to_nat i) (Z.to_nat (j - i)) s.

(** [s[i]] as a number in [0, 256). *)
Definition byte_val (c : ascii) : Z := Z.of_N (N_of_ascii c).

(** [s == ""]. *)
Definition is_empty (s : string) : bool :=
  match s with
  | EmptyString => true
  | String _ _ => false
  end.

(** [strings.Join(elems, sep)]. *)
Definition Join (elems : list string) (sep : string) : string :=
  String.concat sep elems.

(** [strings.HasSuffix(s, suffix)]. *)
Definition HasSuffix (s suffix : string) : bool :=
  (len suffix <=? len s) &&
  String.eqb (slice s (len s - len suffix) (len s)) suffix.

(** [strings.TrimSuffix(s, suffix)]. *)
Definition TrimSuffix (s suffix : string) : string :=
  if HasSuffix s suffix then slice s 0 (len s - len suffix) else s.

End GoString.

Module GoInt.

Definition max_int : Z := 2 ^ 63 - 1.
Definition min_int : Z := - 2 ^ 63.

(** The value of an [int] expression whose mathematical result is [z]. *)
Definition wrap (z : Z) : Z := (z + 2 ^ 63) mod 2 ^ 64 - 2 ^ 63.

Definition add (a b : Z) : Z := wrap (a + b).

End GoInt.

(** ** [unicode/utf8] and [unicode.IsSpace]

    [strings.Fields] belongs to Go's library, not to the repository; it is
    modelled here after the library's code, on its general path
    [FieldsFunc(s, unicode.IsSpace)] (the library's fast path for strings
    of ASCII bytes only computes the same fields). *)

Module Utf8.
Import GoString.

Definition RuneError : Z := 0xFFFD.

(** The table [first]: what the first byte of a sequence announces. *)
Definition xx : Z := 0xF1.
Definition as_ : Z := 0xF0.
Definition s1 : Z := 0x02.
Definition s2 : Z := 0x13.
Definition s3 : Z := 0x03.
Definition s4 : Z := 0x23.
Definition s5 : Z := 0x34.
Definition s6 : Z := 0x04.
Definition s7 : Z := 0x44.

Definition first (b : Z) : Z :=
  if b <? 0x80 then as_
  else if b <? 0xC2 then xx
  else if b <? 0xE0 then s1
  else if b =? 0xE0 then s2
  else if b <? 0xED then s3
  else if b =? 0xED then s4
  else if b <? 0xF0 then s3
  else if b =? 0xF0 then s5
  else if b <? 0xF4 then s6
  else if b =? 0xF4 then s7
  else xx.

Definition locb : Z := 0x80.
Definition hicb : Z := 0xBF.

(** The table [acceptRanges]: bounds of the second byte. *)
Definition acceptRanges (i : Z) : Z * Z :=
  if i =? 0 then (locb, hicb)
  else if i =? 1 then (0xA0, hicb)
  else if i =? 2 then (locb, 0x9F)
  else if i =? 3 then (0x90, hicb)
  else if i =? 4 then (locb, 0x8F)
  else (0, 0).

Definition maskx : Z := 0x3F.
Definition mask2 : Z := 0x1F.
Definition mask3 : Z := 0x0F.
Definition mask4 : Z := 0x07.

(** [utf8.DecodeRuneInString(s)]: the rune at the head of [s] and its
    width in bytes; an invalid sequence is [RuneError] of width 1. *)
Definition DecodeRuneInString (s : string) : Z * nat :=
  match s with
  | EmptyString => (RuneError, 0%nat)
  | String c0 t0 =>
      let b0 := byte_val c0 in
      let x := first b0 in
      if as_ <=? x then ((if x =? xx then RuneError else b0), 1%nat)
      else
        let sz := Z.land x 7 in
        let '(lo, hi) := acceptRanges (Z.shiftr x 4) in
        if len s <? sz then (RuneError, 1%nat)
        else
          match t0 with
          | EmptyString => (RuneError, 1%nat)
          | String c1 t1 =>
              let b1 := byte_val c1 in
              if (b1 <? lo) || (hi <? b1) then (RuneError, 1%nat)
              else if sz <=? 2 then
                (Z.lor (Z.shiftl (Z.land b0 mask2) 6) (Z.land b1 maskx),
                 2%nat)
              else
                match t1 with
                | EmptyString => (RuneError, 1%nat)
                | String c2 t2 =>
                    let b2 := byte_val c2 in
                    if (b2 <? locb) || (hicb <? b2) then (RuneError, 1%nat)
                    else if sz <=? 3 then
                      (Z.lor (Z.lor (Z.shiftl (Z.land b0 mask3) 12)
                                    (Z.shiftl (Z.land b1 maskx) 6))
                             (Z.land b2 maskx), 3%nat)
                    else
                      match t2 with
                      | EmptyString => (RuneError, 1%nat)
                      | String c3 _ =>
                          let b3 := byte_val c3 in
                          if (b3 <? locb) || (hicb <? b3)
                          then (RuneError, 1%nat)
                          else
                            (Z.lor (Z.lor (Z.lor
                               (Z.shiftl (Z.land b0 mask4) 18)
                               (Z.shiftl (Z.land b1 maskx) 12))
                               (Z.shiftl (Z.land b2 maskx) 6))
                               (Z.land b3 maskx), 4%nat)
                      end
                end
          end
  end.

(** [for i, r := range s]: the pairs (byte offset, rune) in order.  The
    recursion runs over the bytes; [skip] counts the bytes still covered
    by the rune decoded last, and [i] is the offset of the head of [s]. *)
Fixpoint range_from (skip : nat) (i : Z) (s : string) : list (Z * Z) :=
  match s with
  | EmptyString => []
  | String _ t =>
      match skip with
      | S k => range_from k (i + 1) t
      | O =>
          let '(r, size) := DecodeRuneInString s in
          (i, r) :: range_from (Nat.pred size) (i + 1) t
      end
  end.

Definition range_string (s : string) : list (Z * Z) := range_from 0 0 s.

Definition MaxLatin1 : Z := 0xFF.

(** [unicode.IsSpace]: the Latin-1 cases, then the table [White_Space]
    above Latin-1. *)
Definition IsSpace (r : Z) : bool :=
  if (0 <=? r) && (r <=? MaxLatin1) then
    (r =? 0x09) || (r =? 0x0A) || (r =? 0x0B) || (r =? 0x0C) ||
    (r =? 0x0D) || (r =? 0x20) || (r =? 0x85) || (r =? 0xA0)
  else
    (r =? 0x1680) || ((0x2000 <=? r) && (r <=? 0x200A)) ||
    (r =? 0x2028) || (r =? 0x2029) || (r =? 0x202F) ||
    (r =? 0x205F) || (r =? 0x3000).

End Utf8.

(** ** [strings.FieldsFunc] and [strings.Fields] *)

Module Strings.
Import GoString.

(** One iteration of the loop of [FieldsFunc]: [start] is the offset
    where the field being read begins, or negative between fields. *)
Definition fields_step (f : Z -> bool)
    (st : Z * list (Z * Z)) (er : Z * Z) : Z * list (Z * Z) :=
  let '(start, spans) := st in
  let '(end_, rune) := er in
  if f rune then
    if 0 <=? start then (Z.lnot start, spans ++ [(start, end_)])
    else (start, spans)
  else
    if start <? 0 then (end_, spans) else (start, spans).

Definition field_spans (f : Z -> bool) (s : string) : list (Z * Z) :=
  let '(start, spans) :=
    fold_left (fields_step f) (Utf8.range_string s) (-1, []) in
  if 0 <=? start then spans ++ [(start, len s)] else spans.

Definition FieldsFunc (s : string) (f : Z -> bool) : list string :=
  map (fun sp => slice s (fst sp) (snd sp)) (field_spans f s).

Definition Fields (s : string) : list string := FieldsFunc s Utf8.IsSpace.

End Strings.

(** ** The chunker: [splitTextIntoChunks] *)

Import GoString.

(** The body of [for _, word := range words]; the state is
    [(chunks, currentChunk)]. *)
Definition chunk_step (chunkSize : Z)
    (st : list string * string) (word : string) : list string * string :=
  let '(chunks, currentChunk) := st in
  if GoInt.add (GoInt.add (len currentChunk) (len word)) 1 >? chunkSize then
    (chunks ++ [currentChunk], word)
  else if is_empty currentChunk then (chunks, word)
  else (chunks, currentChunk +:+ " " +:+ word).

(** The last [if currentChunk != ""]. *)
Definition chunk_finish (st : list string * string) : list string :=
  let '(chunks, currentChunk) := st in
  if is_empty currentChunk then chunks else chunks ++ [currentChunk].

(** The loop and the last test, on the words of the text. *)
Definition chunk_words (words : list string) (chunkSize : Z) : list string :=
  chunk_finish (fold_left (chunk_step chunkSize) words ([], "")).

Definition splitTextIntoChunks (text : string) (chunkSize : Z) : list string :=
  chunk_words (Strings.Fields text) chunkSize.

(** ** [float64] and the ratio *)

Module Float64.

Definition prec : Z := 53.
Definition emax : Z := 1024.

(** [x < y] and [x > y]: false as soon as one side is a NaN. *)
Definition lt (x y : spec_float) : bool := SFltb x y.
Definition gt (x y : spec_float) : bool := SFltb y x.
Definition le (x y : spec_float) : bool := SFleb x y.

Definition mul (x y : spec_float) : spec_float := SFmul prec emax x y.

(** [float64(n)] for an [int] [n]. *)
Definition of_int (n : Z) : spec_float := binary_normalize prec emax n 0 false.

(** [int(x)]: the fraction is dropped.  What Go yields for a NaN, an
    infinity or a value beyond [int] depends on the machine; it is the
    least [int] here, as on amd64. *)
Definition to_int (x : spec_float) : Z :=
  match x with
  | S754_zero _ => 0
  | S754_finite s m e =>
      let v := if 0 <=? e then Z.pos m * 2 ^ e else Z.pos m / 2 ^ (- e) in
      if GoInt.max_int <? v then GoInt.min_int
      else if s then - v else v
  | _ => GoInt.min_int
  end.


(** The constants of [main.go], each the [float64] nearest to its
    decimal writing. *)
Definition c0_1 : spec_float := S754_finite false 0x1999999999999A (-56).
Definition c0_5 : spec_float := S754_finite false 0x10000000000000 (-53).
Definition c0_2 : spec_float := S754_finite false 0x1999999999999A (-55).
Definition c1_5 : spec_float := S754_finite false 0x18000000000000 (-52).
Definition c100 : spec_float := S754_finite false 0x19000000000000 (-46).

End Float64.

(** ** Errors, requests and the world outside *)

(** A Go [error]: one born outside the program (the system, [ffmpeg], the
    API client), or one made by [fmt.Errorf], alone ([Errorf]) or around a
    cause with [%w] ([Wrap]); [WrapPart n cause] is
    [fmt.Errorf("生成第%d部分摘要失败: %w", n, cause)]. *)
Inductive error : Type :=
  | External (what : string)
  | Errorf (message : string)
  | Wrap (label : string) (cause : error)
  | WrapPart (n : Z) (cause : error).

(** The request of one goroutine of [summarizeText].  The prompt is the
    fixed template around the two arguments of [fmt.Sprintf]: the text of
    the chunk and [ratio*100]; the temperature is the same in every
    request and is left out. *)
Record ChatRequest : Type := {
  req_model : string;
  req_text : string;
  req_percent : spec_float;
  req_max_tokens : Z
}.

(** What the program does not decide: the answers of the API (an answer
    of [chat] is the content of its first choice; an answer without error
    and without choice, on which the source panics, is not among them),
    the order in which the goroutines of [summarizeText] come to their
    end, the transcoder, which paths can be written in full
    ([can_write]), after how many bytes the writing of a file that has
    been opened, and so emptied, breaks off ([write_stops]), and how many
    of the latest appends to [summaries] the unlocked append of a
    goroutine misses ([stale]). *)
Record Env : Type := {
  chat : string -> nat -> ChatRequest -> error + string;
  completion : nat -> list nat;
  transcription : string -> string -> string -> error + string;
  ffmpeg : string -> option string -> error + string;
  mkdir_temp : error + string;
  can_write : string -> bool;
  write_stops : string -> option nat;
  stale : nat -> nat
}.

(** The file system: the bytes stored at each path. *)
Abbreviation World := (gmap string string).

Module Os.

Definition ReadFile (w : World) (path : string) : error + string :=
  match w !! path with
  | Some bytes => inr bytes
  | None => inl (External "open: no such file")
  end.

(** What becomes of writing [data] at [path]: it is written in full
    ([can_write]); or the file is opened, which empties it, and the
    writing breaks off after [n] bytes, fewer than [data] has
    ([write_stops]); or the file is not opened, and stays as it is. *)
Inductive written : Type :=
  | Written
  | Stopped (n : nat)
  | NotOpened.

Definition write_result (env : Env) (path data : string) : written :=
  if can_write env path then Written
  else
    match write_stops env path with
    | Some n => if Z.of_nat n <? len data then Stopped n else NotOpened
    | None => NotOpened
    end.

(** [os.WriteFile(path, data, 0644)]: open with truncation, then write. *)
Definition WriteFile (env : Env) (w : World) (path data : string)
  : option error * World :=
  match write_result env path data with
  | Written => (None, <[path := data]> w)
  | Stopped n =>
      (Some (External "write: broken off"),
       <[path := slice data 0 (Z.of_nat n)]> w)
  | NotOpened => (Some (External "open: cannot create"), w)
  end.

(** [os.RemoveAll(dir)]: the files below [dir] go. *)
Definition RemoveAll (w : World) (dir : string) : World :=
  filter (fun kv => String.prefix (dir +:+ "/") kv.1 = false) w.

End Os.

Module Filepath.

(** [os.IsPathSeparator], on Unix. *)
Definition IsPathSeparator (c : ascii) : bool := Ascii.eqb c "/".

(** The loop of [filepath.Ext]; [n] is [i + 1]. *)
Fixpoint ext_loop (path : string) (n : nat) : string :=
  match n with
  | O => ""
  | S i =>
      match String.get i path with
      | Some c =>
          if IsPathSeparator c then ""
          else if Ascii.eqb c "." then slice path (Z.of_nat i) (len path)
          else ext_loop path i
      | None => ""
      end
  end.

Definition Ext (path : string) : string :=
  ext_loop path (String.length path).

(** [filepath.Join(dir, name)] for a clean [dir] and a plain [name]. *)
Definition Join2 (dir name : string) : string := dir +:+ "/" +:+ name.

End Filepath.

(** ** [summarizeText] *)

(** The separator handed to [strings.Join]. *)
Definition summary_separator : string :=
  String "010" (String "010" ("--- 第%d部分结束 ---" +:+
  String "010" (String "010" ""))).

(** The first lines of [summarizeText]. *)
Definition clamp_ratio (ratio : spec_float) : spec_float :=
  if Float64.lt ratio Float64.c0_1 then Float64.c0_1
  else if Float64.gt ratio Float64.c0_5 then Float64.c0_5
  else ratio.

Definition chat_request (model text : string) (ratio : spec_float)
  : ChatRequest :=
  {| req_model := model;
     req_text := text;
     req_percent := Float64.mul ratio Float64.c100;
     req_max_tokens :=
       Float64.to_int
         (Float64.mul (Float64.mul (Float64.of_int (len text)) ratio)
                      Float64.c1_5) |}.

(** What the goroutines share: the slice [summaries] and the channel
    [errChan], whose buffer holds one error per chunk, so that no send
    waits.  The source appends to [summaries] without a lock: an append
    may start from a value that the slice held before the latest appends
    of other goroutines, whose fragments are then lost; [versions] keeps
    the values that the slice has held, the latest first.  What a race
    on the three words of a slice header can do beyond the loss of
    appends is left out. *)
Record Shared : Type := {
  summaries : list string;
  errChan : list error;
  versions : list (list string)
}.

(** The end of the goroutine of chunk [idx]: its request has been
    answered, and it sends its error, or appends its fragment to the
    value that the slice had [stale env idx] appends ago, the value it
    has now when that is 0. *)
Definition goroutine_end (env : Env) (apiKey model : string)
    (ratio : spec_float) (chunks : list string) (st : Shared) (idx : nat)
  : Shared :=
  match chunks !! idx with
  | None => st
  | Some text =>
      match chat env apiKey idx (chat_request model text ratio) with
      | inl err =>
          {| summaries := summaries st;
             errChan :=
               errChan st ++ [WrapPart (Z.of_nat idx + 1) err];
             versions := versions st |}
      | inr content =>
          {| summaries :=
               nth (stale env idx) (summaries st :: versions st) [] ++
               [content];
             errChan := errChan st;
             versions := summaries st :: versions st |}
      end
  end.

(** The goroutines, in the order in which they end. *)
Definition run_goroutines (env : Env) (apiKey model : string)
    (ratio : spec_float) (chunks : list string) : Shared :=
  fold_left (goroutine_end env apiKey model ratio chunks)
    (completion env (length chunks))
    {| summaries := []; errChan := []; versions := [] |}.

Definition summarizeText (env : Env)
    (apiKey model inputPath outputPath : string) (ratio : spec_float)
    (w : World) : option error * World :=
  let ratio := clamp_ratio ratio in
  match Os.ReadFile w inputPath with
  | inl err => (Some (Wrap "读取转录文件失败" err), w)
  | inr transcript =>
      let chunks := splitTextIntoChunks transcript 3000 in
      let st := run_goroutines env apiKey model ratio chunks in
      match errChan st with
      | err :: _ => (Some err, w)
      | [] =>
          let combinedSummary := Join (summaries st) summary_separator in
          match Os.WriteFile env w outputPath combinedSummary with
          | (Some err, w') => (Some (Wrap "写入摘要文件失败" err), w')
          | (None, w') => (None, w')
          end
      end
  end.

(** ** The other steps and the three subcommands *)

Definition extractAudio (env : Env) (videoPath audioPath : string)
    (w : World) : option error * World :=
  match ffmpeg env videoPath (w !! videoPath) with
  | inl err => (Some (Wrap "ffmpeg执行失败" err), w)
  | inr audio => (None, <[audioPath := audio]> w)
  end.

Definition transcribeAudio (env : Env)
    (apiKey model audioPath outputPath : string) (w : World)
  : option error * World :=
  match Os.ReadFile w audioPath with
  | inl err => (Some (Wrap "打开音频文件失败" err), w)
  | inr audio =>
      match transcription env apiKey model audio with
      | inl err => (Some (Wrap "调用OpenAI API失败" err), w)
      | inr text =>
          match Os.write_result env outputPath text with
          | Os.NotOpened =>
              (Some (Wrap "创建输出文件失败"
                       (External "open: cannot create")), w)
          | Os.Stopped n =>
              (Some (Wrap "写入转录文本失败" (External "write: broken off")),
               <[outputPath := slice text 0 (Z.of_nat n)]> w)
          | Os.Written => (None, <[outputPath := text]> w)
          end
      end
  end.

Record Config : Type := {
  OpenAIAPIKey : string;
  Model : string
}.

(** The flags of a subcommand: [-i], [-o] and [-ratio]. *)
Record Flags : Type := {
  flag_i : string;
  flag_o : string;
  flag_ratio : spec_float
}.

(** [outputPath] after the test [if outputPath == ""]. *)
Definition default_output (input output suffix : string) : string :=
  if is_empty output
  then TrimSuffix input (Filepath.Ext input) +:+ suffix
  else output.

Definition generate_output (fl : Flags) : string :=
  default_output (flag_i fl) (flag_o fl) ".txt".

Definition transcribe_output (fl : Flags) : string :=
  default_output (flag_i fl) (flag_o fl) ".txt".

Definition summarize_output (fl : Flags) : string :=
  default_output (flag_i fl) (flag_o fl) ".summary.txt".

(** [generateCommand]: the [Exec] of the command it builds, run on the
    flags as parsed; the temporary directory is removed on every way out
    once it has been made.  What [log.Printf] prints is left out. *)
Definition generateCommand (env : Env) (config : Config) (fl : Flags)
    (w : World) : option error * World :=
  let videoPath := flag_i fl in
  if is_empty videoPath then (Some (Errorf "必须指定视频文件 (-i)"), w)
  else
    let outputPath := generate_output fl in
    match mkdir_temp env with
    | inl err => (Some (Wrap "创建临时目录失败" err), w)
    | inr tmpDir =>
        let audioPath := Filepath.Join2 tmpDir "audio.mp3" in
        let transcriptPath := Filepath.Join2 tmpDir "transcript.txt" in
        let '(res, w') :=
          match extractAudio env videoPath audioPath w with
          | (Some err, w1) => (Some (Wrap "提取音频失败" err), w1)
          | (None, w1) =>
              match transcribeAudio env (OpenAIAPIKey config) (Model config)
                      audioPath transcriptPath w1 with
              | (Some err, w2) =>
                  (Some (Wrap "音频转文字失败" err), w2)
              | (None, w2) =>
                  match summarizeText env (OpenAIAPIKey config)
                          (Model config) transcriptPath outputPath
                          (flag_ratio fl) w2 with
                  | (Some err, w3) =>
                      (Some (Wrap "生成摘要失败" err), w3)
                  | (None, w3) => (None, w3)
                  end
              end
          end in
        (res, Os.RemoveAll w' tmpDir)
    end.

(** [transcribeCommand]: the [Exec] of the command it builds. *)
Definition transcribeCommand (env : Env) (config : Config) (fl : Flags)
    (w : World) : option error * World :=
  let audioPath := flag_i fl in
  if is_empty audioPath then (Some (Errorf "必须指定音频文件 (-i)"), w)
  else
    let outputPath := transcribe_output fl in
    match transcribeAudio env (OpenAIAPIKey config) (Model config)
            audioPath outputPath w with
    | (Some err, w') => (Some (Wrap "音频转文字失败" err), w')
    | (None, w') => (None, w')
    end.

(** The error of [summarizeCommand] on a ratio out of range. *)
Definition ratio_error : error := Errorf "摘要比例必须在0.1-0.5之间".

(** [summarizeCommand]: the [Exec] of the command it builds. *)
Definition summarizeCommand (env : Env) (config : Config) (fl : Flags)
    (w : World) : option error * World :=
  let inputPath := flag_i fl in
  let summaryRatio := flag_ratio fl in
  if is_empty inputPath then
    (Some (Errorf "必须指定输入文本文件 (-i)"), w)
  else
    let outputPath := summarize_output fl in
    if Float64.lt summaryRatio Float64.c0_1 ||
       Float64.gt summaryRatio Float64.c0_5
    then (Some ratio_error, w)
    else
      match summarizeText env (OpenAIAPIKey config) (Model config)
              inputPath outputPath summaryRatio w with
      | (Some err, w') => (Some (Wrap "生成摘要失败" err), w')
      | (None, w') => (None, w')
      end.

(** ** Sample data *)

Module Demo.

(** An API that answers every request, goroutines that end in the order
    of their chunks. *)
Definition env_ok : Env :=
  {| chat := fun _ _ req => inr ("summary of " +:+ req_text req);
     completion := fun n => seq 0 n;
     transcription := fun _ _ audio => inr ("words of " +:+ audio);
     ffmpeg := fun _ _ => inr "audio";
     mkdir_temp := inr "/tmp/video-note-1";
     can_write := fun _ => true;
     write_stops := fun _ => None;
     stale := fun _ => 0%nat |}.

(** An API that refuses every request. *)
Definition env_failing : Env :=
  {| chat := fun _ _ _ => inl (External "status code: 429");
     completion := fun n => seq 0 n;
     transcription := fun _ _ audio => inr ("words of " +:+ audio);
     ffmpeg := fun _ _ => inr "audio";
     mkdir_temp := inr "/tmp/video-note-1";
     can_write := fun _ => true;
     write_stops := fun _ => None;
     stale := fun _ => 0%nat |}.

(** A disk that fills up: a file can be opened, and the writing breaks
    off after five bytes. *)
Definition env_disk_full : Env :=
  {| chat := fun _ _ req => inr ("summary of " +:+ req_text req);
     completion := fun n => seq 0 n;
     transcription := fun _ _ audio => inr ("words of " +:+ audio);
     ffmpeg := fun _ _ => inr "audio";
     mkdir_temp := inr "/tmp/video-note-1";
     can_write := fun _ => false;
     write_stops := fun _ => Some 5%nat;
     stale := fun _ => 0%nat |}.

(** Goroutines that end in the order of their chunks, the second of
    which appends to the slice as it was before the append of the
    first. *)
Definition env_racy : Env :=
  {| chat := fun _ _ req => inr ("summary of " +:+ req_text req);
     completion := fun n => seq 0 n;
     transcription := fun _ _ audio => inr ("words of " +:+ audio);
     ffmpeg := fun _ _ => inr "audio";
     mkdir_temp := inr "/tmp/video-note-1";
     can_write := fun _ => true;
     write_stops := fun _ => None;
     stale := fun idx => idx |}.

Definition config : Config :=
  {| OpenAIAPIKey := "sk-test"; Model := "gpt-3.5-turbo" |}.

Definition world : World := {[ "transcript.txt" := "a b c d" ]}.

(** [-ratio 0], [-ratio 0.2] and [-ratio 1]. *)
Definition ratio_zero : spec_float := S754_zero false.

Definition flags (ratio : spec_float) : Flags :=
  {| flag_i := "transcript.txt"; flag_o := ""; flag_ratio := ratio |}.

(** A transcript of 700 words, 3499 bytes, which makes two chunks. *)
Definition long_transcript : string := Join (repeat "word" 700) " ".

Definition long_world : World := {[ "transcript.txt" := long_transcript ]}.

(** A transcript beside notes of an earlier run, and a recording beside
    an earlier transcript. *)
Definition notes_world : World :=
  <["notes.txt" := "notes of last week"]> world.

Definition audio_world : World :=
  <["audio.txt" := "words of last week"]> {[ "audio.mp3" := "sound" ]}.

(** A transcript of two spaces, and a video with [generate -i video.mp4]. *)
Definition blank_world : World := {[ "transcript.txt" := "  " ]}.

Definition video_world : World := {[ "video.mp4" := "frames" ]}.

Definition video_flags : Flags :=
  {| flag_i := "video.mp4"; flag_o := ""; flag_ratio := Float64.c0_2 |}.

End Demo.

(** ** Vocabulary of the statements *)

(** The offsets of a list of (offset, rune) grow strictly inside
    [[lo, hi)]. *)
Fixpoint offsets_within (lo hi : Z) (l : list (Z * Z)) : Prop :=
  match l with
  | [] => True
  | (o, _) :: l' => lo <= o < hi /\ offsets_within (o + 1) hi l'
  end.

(** The bytes a list of spans covers, one more per span for the
    separator that follows it. *)
Fixpoint spans_weight (spans : list (Z * Z)) : Z :=
  match spans with
  | [] => 0
  | (a, b) :: spans' => (b - a + 1) + spans_weight spans'
  end.

Definition span_ok (hi : Z) (sp : Z * Z) : Prop :=
  0 <= sp.1 /\ sp.1 < sp.2 /\ sp.2 <= hi.

(** The bytes of a list of words, one more per word. *)
Fixpoint words_weight (ws : list string) : Z :=
  match ws with
  | [] => 0
  | w :: ws' => (len w + 1) + words_weight ws'
  end.

(** What the spec allows a chunk to be: within the budget, or one word
    that is itself beyond the budget. *)
Definition chunk_ok (cs : Z) (words : list string) (c : string) : Prop :=
  len c <= cs \/ (In c words /\ cs < len c).

Definition good_chunk (cs : Z) (words : list string) (c : string) : Prop :=
  0 < len c /\ chunk_ok cs words c.

(** Does the first word, alone, already exceed the budget? *)
Definition first_overflows (words : list string) (cs : Z) : bool :=
  match words with
  | [] => false
  | w :: _ => len w + 1 >? cs
  end.

(** A text of whitespace only: every rune that [range] yields is a
    space for [unicode.IsSpace]. *)
Definition only_whitespace (text : string) : Prop :=
  Forall (fun er => Utf8.IsSpace er.2 = true) (Utf8.range_string text).

(** A ratio inside [[0.1, 0.5]]. *)
Definition ratio_in_range (r : spec_float) : bool :=
  Float64.le Float64.c0_1 r && Float64.le r Float64.c0_5.

(** What the request of chunk [idx] is answered, when there is such a
    chunk. *)
Definition request_outcome (env : Env) (apiKey model : string)
    (ratio : spec_float) (chunks : list string) (idx : nat)
  : option (error + string) :=
  match chunks !! idx with
  | None => None
  | Some text => Some (chat env apiKey idx (chat_request model text ratio))
  end.

(** The error the goroutine of chunk [idx] sends, if it sends one. *)
Definition sent_error (env : Env) (apiKey model : string)
    (ratio : spec_float) (chunks : list string) (idx : nat) : option error :=
  match request_outcome env apiKey model ratio chunks idx with
  | Some (inl err) => Some (WrapPart (Z.of_nat idx + 1) err)
  | _ => None
  end.

(** The fragment the goroutine of chunk [idx] appends, if it appends
    one. *)
Definition fragment (env : Env) (apiKey model : string)
    (ratio : spec_float) (chunks : list string) (idx : nat) : option string :=
  match request_outcome env apiKey model ratio chunks idx with
  | Some (inr content) => Some content
  | _ => None
  end.

(** Each of the [n] goroutines comes to its end once. *)
Definition fair_completion (env : Env) (n : nat) : Prop :=
  Permutation (completion env n) (seq 0 n).

(** A run of words makes a chunk the spec allows when, joined by single
    spaces, it is within the budget, or when it is one word. *)
Definition group_ok (cs : Z) (g : list string) : Prop :=
  len (Join g " ") <= cs \/ exists w, g = [w].

(** A run of words ends only where the first word of the next run, with
    its separator, would not fit any more. *)
Fixpoint greedy_groups (cs : Z) (groups : list (list string)) : Prop :=
  match groups with
  | [] => True
  | g :: rest =>
      match rest with
      | (w :: _) :: _ => cs < len (Join g " ") + len w + 1
      | _ => True
      end /\ greedy_groups cs rest
  end.

(** The bytes of a string are neither dots nor path separators. *)
Definition plain_name (r : string) : Prop :=
  forall (j : nat) c, String.get j r = Some c ->
    Filepath.IsPathSeparator c = false /\ Ascii.eqb c "." = false.

(** A path below the directory [dir]. *)
Definition below (dir path : string) : bool :=
  String.prefix (dir +:+ "/") path.

(** ** Facts on strings *)

Section StringFacts.

Lemma len_nonneg s : 0 <= len s.
Proof. unfold len. lia. Qed.

Lemma len_empty : len "" = 0.
Proof. reflexivity. Qed.

Lemma len_String c s : len (String c s) = 1 + len s.
Proof. unfold len. cbn [String.length]. lia. Qed.

Lemma string_app_empty_l (s : string) : "" +:+ s = s.
Proof. reflexivity. Qed.

Lemma string_app_cons c (a b : string) : String c a +:+ b = String c (a +:+ b).
Proof. reflexivity. Qed.

Lemma len_app a b : len (a +:+ b) = len a + len b.
Proof.
  induction a as [|c a IH].
  - rewrite string_app_empty_l, len_empty. lia.
  - rewrite string_app_cons, !len_String, IH. lia.
Qed.

Lemma is_empty_true s : is_empty s = true <-> s = "".
Proof. destruct s; cbn; split; congruence. Qed.

Lemma is_empty_false s : is_empty s = false <-> 0 < len s.
Proof.
  destruct s as [|c s]; cbn [is_empty].
  - rewrite len_empty. split; [congruence | lia].
  - rewrite len_String. pose proof (len_nonneg s). split; [lia | reflexivity].
Qed.

Lemma string_app_empty_r (s : string) : s +:+ "" = s.
Proof.
  induction s as [|c s IH]; [reflexivity|]. by rewrite string_app_cons, IH.
Qed.

Lemma string_app_assoc (a b c : string) : (a +:+ b) +:+ c = a +:+ (b +:+ c).
Proof.
  induction a as [|x a IH]; [reflexivity|]. by rewrite !string_app_cons, IH.
Qed.

Lemma substring_length (s : string) : forall n m : nat,
  (n + m <= String.length s)%nat ->
  String.length (String.substring n m s) = m.
Proof.
  induction s as [|c s IH]; intros n m H; cbn in H.
  - assert (n = 0%nat /\ m = 0%nat) as [-> ->] by lia. reflexivity.
  - destruct n as [|n]; cbn [String.substring].
    + destruct m as [|m]; [reflexivity|].
      cbn [String.length]. f_equal. apply IH. lia.
    + apply IH. lia.
Qed.

Lemma slice_len s i j :
  0 <= i <= j -> j <= len s -> len (slice s i j) = j - i.
Proof.
  intros Hij Hj. unfold slice, len in *.
  rewrite substring_length; lia.
Qed.

Lemma substring_all (s : string) :
  String.substring 0 (String.length s) s = s.
Proof. induction s as [|c s IH]; cbn; [reflexivity | by rewrite IH]. Qed.

Lemma substring_app_l (a b : string) :
  String.substring 0 (String.length a) (a +:+ b) = a.
Proof.
  induction a as [|c a IH].
  - destruct b; reflexivity.
  - rewrite string_app_cons. cbn. by rewrite IH.
Qed.

Lemma substring_app_r (a b : string) :
  String.substring (String.length a) (String.length b) (a +:+ b) = b.
Proof.
  induction a as [|c a IH].
  - apply substring_all.
  - rewrite string_app_cons. cbn. exact IH.
Qed.

End StringFacts.

(** ** Facts on [range] and on [strings.Fields] *)

Section FieldsFacts.
Import Utf8 Strings.

Lemma offsets_within_weaken lo lo' hi l :
  lo' <= lo -> offsets_within lo hi l -> offsets_within lo' hi l.
Proof.
  destruct l as [|[o r] l]; cbn; [done|].
  intros Hle [Ho Hl]. split; [lia | done].
Qed.

Lemma range_from_offsets s : forall skip i,
  offsets_within i (i + len s) (range_from skip i s).
Proof.
  induction s as [|c s IH]; intros skip i; cbn [range_from]; [done|].
  rewrite len_String.
  destruct skip as [|k].
  - destruct (DecodeRuneInString (String c s)) as [r size].
    cbn [offsets_within]. pose proof (len_nonneg s).
    split; [lia|].
    replace (i + (1 + len s)) with (i + 1 + len s) by lia. apply IH.
  - apply offsets_within_weaken with (lo := i + 1); [lia|].
    replace (i + (1 + len s)) with (i + 1 + len s) by lia. apply IH.
Qed.

Lemma spans_weight_app l1 l2 :
  spans_weight (l1 ++ l2) = spans_weight l1 + spans_weight l2.
Proof.
  induction l1 as [|[a b] l1 IH]; cbn [spans_weight app]; [lia|].
  rewrite IH. lia.
Qed.

Lemma fields_loop_inv (f : Z -> bool) (hi : Z) (l : list (Z * Z)) :
  forall e start spans,
    offsets_within e hi l -> 0 <= e <= hi ->
    Forall (span_ok hi) spans ->
    (0 <= start -> start < e /\ spans_weight spans <= start) ->
    (start < 0 -> spans_weight spans <= e) ->
    forall start' spans',
      fold_left (fields_step f) l (start, spans) = (start', spans') ->
      Forall (span_ok hi) spans' /\
      (0 <= start' -> start' < hi /\ spans_weight spans' <= start') /\
      (start' < 0 -> spans_weight spans' <= hi).
Proof.
  induction l as [|[o r] l IH]; intros e start spans Hoff He Hok Hpos Hneg
    start' spans' Hfold.
  - cbn in Hfold. injection Hfold as <- <-.
    split; [done|]. split; intros; [|lia].
    destruct Hpos; lia.
  - cbn [fold_left] in Hfold. destruct Hoff as [Ho Hoff].
    revert Hfold. unfold fields_step at 2.
    destruct (f r).
    + destruct (Z.leb_spec 0 start) as [Hs|Hs]; intros Hfold.
      * destruct (Hpos Hs) as [Hlt Hw].
        refine (IH (o + 1) _ _ Hoff _ _ _ _ _ _ Hfold); [lia | | | ].
        -- apply Forall_app. split; [done|].
           constructor; [|constructor]. unfold span_ok. cbn. lia.
        -- rewrite Z.lnot_eq_pred_opp. lia.
        -- intros _. rewrite spans_weight_app. cbn [spans_weight]. lia.
      * refine (IH (o + 1) _ _ Hoff _ _ _ _ _ _ Hfold); [lia | done | lia | ].
        intros _. specialize (Hneg Hs). lia.
    + destruct (Z.ltb_spec start 0) as [Hs|Hs]; intros Hfold.
      * refine (IH (o + 1) _ _ Hoff _ _ _ _ _ _ Hfold); [lia | done | | lia].
        intros _. specialize (Hneg Hs). lia.
      * refine (IH (o + 1) _ _ Hoff _ _ _ _ _ _ Hfold); [lia | done | | lia].
        intros _. destruct (Hpos Hs). lia.
Qed.

Lemma field_spans_ok f s :
  Forall (span_ok (len s)) (field_spans f s) /\
  spans_weight (field_spans f s) <= len s + 1.
Proof.
  unfold field_spans.
  destruct (fold_left (fields_step f) (range_string s) (-1, []))
    as [start spans] eqn:Hfold.
  pose proof (len_nonneg s) as Hlen.
  assert (offsets_within 0 (len s) (range_string s)) as Hoff
    by apply (range_from_offsets s 0%nat 0).
  assert (Forall (span_ok (len s)) spans /\
          (0 <= start -> start < len s /\ spans_weight spans <= start) /\
          (start < 0 -> spans_weight spans <= len s))
    as (Hok & Hpos & Hneg).
  { refine (fields_loop_inv f (len s) _ 0 (-1) [] Hoff _ _ _ _ _ _ Hfold).
    - lia.
    - constructor.
    - lia.
    - intros _. cbn. lia. }
  destruct (Z.leb_spec 0 start) as [Hs|Hs].
  - destruct (Hpos Hs) as [Hlt Hw]. split.
    + apply Forall_app. split; [done|].
      constructor; [|constructor]. unfold span_ok. cbn. lia.
    + rewrite spans_weight_app. cbn [spans_weight]. lia.
  - split; [done|]. specialize (Hneg Hs). lia.
Qed.

Lemma words_weight_nonneg ws : 0 <= words_weight ws.
Proof.
  induction ws as [|w ws IH]; cbn [words_weight]; [lia|].
  pose proof (len_nonneg w). lia.
Qed.

Lemma slices_weight s spans :
  Forall (span_ok (len s)) spans ->
  Forall (fun w => 0 < len w) (map (fun sp => slice s sp.1 sp.2) spans) /\
  words_weight (map (fun sp => slice s sp.1 sp.2) spans) =
    spans_weight spans.
Proof.
  induction 1 as [|[a b] spans (Ha & Hab & Hb) _ [IH1 IH2]]; cbn in *.
  - split; [constructor | reflexivity].
  - rewrite slice_len by lia. split; [|lia].
    constructor; [rewrite slice_len by lia; lia | done].
Qed.

(** Every field is a non-empty string. *)
Lemma FieldsFunc_nonempty s f :
  Forall (fun w => 0 < len w) (FieldsFunc s f).
Proof.
  unfold FieldsFunc.
  apply slices_weight, field_spans_ok.
Qed.

(** The fields and one separator each fit in [len s + 1] bytes. *)
Lemma FieldsFunc_weight s f : words_weight (FieldsFunc s f) <= len s + 1.
Proof.
  unfold FieldsFunc.
  destruct (field_spans_ok f s) as [Hok Hw].
  destruct (slices_weight s _ Hok) as [_ ->]. exact Hw.
Qed.

End FieldsFacts.

(** ** Facts on the chunker *)

Section ChunkerFacts.

Lemma wrap_small z : GoInt.min_int <= z <= GoInt.max_int -> GoInt.wrap z = z.
Proof.
  unfold GoInt.min_int, GoInt.max_int, GoInt.wrap. intros H.
  rewrite Z.mod_small; lia.
Qed.

(** The sum the loop compares with the budget does not wrap when it fits
    an [int]. *)
Lemma chunk_sum_exact cur w :
  len cur + len w + 1 <= GoInt.max_int ->
  GoInt.add (GoInt.add (len cur) (len w)) 1 = len cur + len w + 1.
Proof.
  intros H. pose proof (len_nonneg cur). pose proof (len_nonneg w).
  unfold GoInt.add.
  rewrite (wrap_small (len cur + len w)), wrap_small;
    unfold GoInt.min_int, GoInt.max_int in *; lia.
Qed.

(** The three branches of the loop body. *)
Lemma chunk_step_cases cs chunks cur w :
  len cur + len w + 1 <= GoInt.max_int ->
  (cs < len cur + len w + 1 /\
   chunk_step cs (chunks, cur) w = (chunks ++ [cur], w)) \/
  (len cur + len w + 1 <= cs /\ cur = "" /\
   chunk_step cs (chunks, cur) w = (chunks, w)) \/
  (len cur + len w + 1 <= cs /\ 0 < len cur /\
   chunk_step cs (chunks, cur) w = (chunks, cur +:+ " " +:+ w)).
Proof.
  intros H. unfold chunk_step. rewrite chunk_sum_exact by done.
  destruct (Z.gtb_spec (len cur + len w + 1) cs) as [Hgt|Hle].
  - left. split; [lia | done].
  - right. destruct (is_empty cur) eqn:He.
    + left. apply is_empty_true in He. done.
    + right. apply is_empty_false in He. done.
Qed.

Lemma Join_single x sep : Join [x] sep = x.
Proof. reflexivity. Qed.

Lemma Join_cons x y l sep :
  Join (x :: y :: l) sep = x +:+ sep +:+ Join (y :: l) sep.
Proof. reflexivity. Qed.

(** Joining is blind to where a separator came from. *)
Lemma Join_merge sep a b r : forall l,
  Join (l ++ (a +:+ sep +:+ b) :: r) sep = Join (l ++ a :: b :: r) sep.
Proof.
  induction l as [|x l IH].
  - cbn [app]. rewrite Join_cons. destruct r as [|y r].
    + by rewrite !Join_single.
    + by rewrite !Join_cons, !string_app_assoc.
  - destruct l as [|y l].
    + cbn [app] in *. by rewrite !Join_cons, IH, Join_cons.
    + cbn [app] in *. by rewrite !(Join_cons x), IH.
Qed.

Lemma word_chunk_ok cs words w : In w words -> chunk_ok cs words w.
Proof.
  intros Hin. unfold chunk_ok.
  destruct (Z.le_gt_cases (len w) cs); [by left | by right].
Qed.

(** Chunks already emitted are never looked at again. *)
Lemma chunk_step_prefix cs pre chunks cur w :
  chunk_step cs (pre ++ chunks, cur) w =
    (pre ++ (chunk_step cs (chunks, cur) w).1,
     (chunk_step cs (chunks, cur) w).2).
Proof.
  unfold chunk_step.
  destruct (_ >? cs); cbn [fst snd]; [by rewrite <- List.app_assoc|].
  by destruct (is_empty cur).
Qed.

Lemma chunk_loop_prefix cs ws : forall pre chunks cur,
  fold_left (chunk_step cs) ws (pre ++ chunks, cur) =
    (pre ++ (fold_left (chunk_step cs) ws (chunks, cur)).1,
     (fold_left (chunk_step cs) ws (chunks, cur)).2).
Proof.
  induction ws as [|w ws IH]; intros pre chunks cur; [done|].
  cbn [fold_left]. rewrite chunk_step_prefix.
  destruct (chunk_step cs (chunks, cur) w) as [chunks' cur'].
  apply IH.
Qed.

Lemma chunk_finish_prefix pre st :
  chunk_finish (pre ++ st.1, st.2) = pre ++ chunk_finish st.
Proof.
  destruct st as [chunks cur]. cbn.
  destruct (is_empty cur); [done|]. by rewrite <- List.app_assoc.
Qed.

(** The loop from a state whose current chunk is not empty. *)
Lemma chunk_loop_shape cs all ws : forall chunks cur,
  good_chunk cs all cur ->
  Forall (good_chunk cs all) chunks ->
  Forall (fun w => 0 < len w) ws ->
  (forall w, In w ws -> In w all) ->
  len cur + words_weight ws <= GoInt.max_int ->
  Forall (good_chunk cs all)
    (chunk_finish (fold_left (chunk_step cs) ws (chunks, cur))) /\
  Join (chunk_finish (fold_left (chunk_step cs) ws (chunks, cur))) " " =
    Join (chunks ++ cur :: ws) " ".
Proof.
  induction ws as [|w ws IH]; intros chunks cur Hcur Hchunks Hne Hin Hb.
  - cbn [fold_left chunk_finish].
    destruct Hcur as [Hpos Hok].
    apply is_empty_false in Hpos as He. rewrite He.
    split; [|done].
    apply Forall_app. split; [done|].
    constructor; [by split | constructor].
  - cbn [fold_left]. cbn [words_weight] in Hb.
    pose proof (words_weight_nonneg ws) as Hw.
    apply Forall_cons in Hne as [Hwpos Hne].
    assert (In w all) as Hwin by (apply Hin; by left).
    assert (forall w', In w' ws -> In w' all) as Hin'
      by (intros w' ?; apply Hin; by right).
    destruct Hcur as [Hpos Hok].
    destruct (chunk_step_cases cs chunks cur w) as
      [[Hgt ->]|[(Hle & -> & _)|(Hle & _ & ->)]]; [lia | | |].
    + destruct (IH (chunks ++ [cur]) w) as [IH1 IH2]; try done.
      * split; [done|]. by apply word_chunk_ok.
      * apply Forall_app. split; [done|].
        constructor; [by split | constructor].
      * lia.
      * split; [done|]. by rewrite IH2, <- List.app_assoc.
    + rewrite len_empty in Hpos. lia.
    + destruct (IH chunks (cur +:+ " " +:+ w)) as [IH1 IH2]; try done.
      * split; [rewrite !len_app; change (len " ") with 1; lia|].
        left. rewrite !len_app. change (len " ") with 1. lia.
      * rewrite !len_app. change (len " ") with 1. lia.
      * split; [done|]. by rewrite IH2, Join_merge.
Qed.

(** The chunks of a list of words: an empty chunk when the first word
    overflows, then chunks that are not empty, are within the budget
    unless they are one long word, and spell the words in order. *)
Lemma chunk_words_shape ws cs :
  Forall (fun w => 0 < len w) ws ->
  words_weight ws <= GoInt.max_int ->
  exists tl,
    chunk_words ws cs = (if first_overflows ws cs then "" :: tl else tl) /\
    Forall (good_chunk cs ws) tl /\
    Join tl " " = Join ws " ".
Proof.
  intros Hne Hb. destruct ws as [|w ws].
  - exists []. by repeat split.
  - apply Forall_cons in Hne as Hne'. destruct Hne' as [Hwpos Hne'].
    cbn [words_weight] in Hb. pose proof (words_weight_nonneg ws) as Hw.
    assert (good_chunk cs (w :: ws) w) as Hgood.
    { split; [done|]. apply word_chunk_ok. by left. }
    assert (forall w', In w' ws -> In w' (w :: ws)) as Hin
      by (intros w' ?; by right).
    destruct (chunk_loop_shape cs (w :: ws) ws [] w) as [H1 H2];
      try done; try lia.
    exists (chunk_finish (fold_left (chunk_step cs) ws ([], w))).
    split; [|done].
    unfold chunk_words. cbn [fold_left first_overflows].
    destruct (chunk_step_cases cs [] "" w) as
      [[Hgt ->]|[(Hle & _ & ->)|(_ & Hpos & _)]].
    + rewrite len_empty. lia.
    + rewrite len_empty in Hgt.
      destruct (Z.gtb_spec (len w + 1) cs) as [_|?]; [|lia].
      change ([] ++ [""])%list with ([""] ++ [])%list.
      rewrite chunk_loop_prefix.
      apply (chunk_finish_prefix [""]).
    + rewrite len_empty in Hle.
      destruct (Z.gtb_spec (len w + 1) cs) as [?|_]; [lia|]. done.
    + rewrite len_empty in Hpos. lia.
Qed.

End ChunkerFacts.

(** ** Facts on the ratio *)

Section RatioFacts.
Import Float64.

Lemma SFcompare_antisym x y :
  SFcompare y x = option_map CompOpp (SFcompare x y).
Proof.
  destruct x as [sx|sx| |sx mx ex], y as [sy|sy| |sy my ey];
    cbn; try reflexivity;
    try (destruct sx; reflexivity); try (destruct sy; reflexivity);
    try (destruct sx, sy; reflexivity).
  assert (Pos.compare_cont Eq my mx = CompOpp (Pos.compare_cont Eq mx my))
    as Hm by (symmetry; apply (Pos.compare_cont_antisym mx my Eq)).
  assert ((ey ?= ex) = CompOpp (ex ?= ey)) as He
    by apply Z.compare_antisym.
  rewrite Hm, He.
  destruct sx, sy; cbn; try reflexivity;
    destruct (ex ?= ey); cbn; try reflexivity;
    by destruct (Pos.compare_cont Eq mx my).
Qed.

Lemma le_not_lt x y : le x y = true -> lt y x = false.
Proof.
  unfold le, lt, SFleb, SFltb. rewrite (SFcompare_antisym x y).
  by destruct (SFcompare x y) as [[]|].
Qed.



Lemma SFcompare_pos m1 e1 m2 e2 :
  SFcompare (S754_finite false m1 e1) (S754_finite false m2 e2) =
    Some match e1 ?= e2 with
         | Lt => Lt
         | Gt => Gt
         | Eq => Pos.compare_cont Eq m1 m2
         end.
Proof. reflexivity. Qed.

(** No ratio is both below 0.1 and above 0.5. *)
Lemma lt_lo_not_gt_hi r : lt r c0_1 = true -> gt r c0_5 = false.
Proof.
  unfold lt, gt, SFltb, c0_1, c0_5.
  destruct r as [s|s| |s m e].
  - intros _. reflexivity.
  - destruct s; intros H; [reflexivity | discriminate H].
  - intros H. discriminate H.
  - destruct s; [intros _; reflexivity|].
    rewrite !SFcompare_pos.
    destruct (Z.compare_spec e (-56)) as [He|He|He];
      destruct (Z.compare_spec (-53) e) as [He'|He'|He'];
      try lia; intros H; try reflexivity; discriminate H.
Qed.

Lemma in_range_not_rejected r :
  ratio_in_range r = true -> lt r c0_1 = false /\ gt r c0_5 = false.
Proof.
  unfold ratio_in_range. intros [H1 H2]%andb_true_iff.
  split; [by apply le_not_lt | by apply (le_not_lt r c0_5)].
Qed.

Lemma clamp_ratio_lo r : lt r c0_1 = true -> clamp_ratio r = c0_1.
Proof. intros H. unfold clamp_ratio. by rewrite H. Qed.

Lemma clamp_ratio_hi r : gt r c0_5 = true -> clamp_ratio r = c0_5.
Proof.
  intros H. unfold clamp_ratio.
  destruct (lt r c0_1) eqn:Hlo; [|by rewrite H].
  apply lt_lo_not_gt_hi in Hlo. congruence.
Qed.

Lemma clamp_ratio_id r :
  lt r c0_1 = false -> gt r c0_5 = false -> clamp_ratio r = r.
Proof. intros H1 H2. unfold clamp_ratio. by rewrite H1, H2. Qed.



End RatioFacts.

(** ** Facts on paths *)

Section PathFacts.
Import Filepath.

Lemma substring_none (s : string) : forall n, String.substring n 0 s = "".
Proof. induction s as [|c s IH]; intros [|n]; cbn; auto. Qed.

Lemma substring_split (s : string) : forall k : nat,
  (k <= String.length s)%nat ->
  String.substring 0 k s +:+
    String.substring k (String.length s - k) s = s.
Proof.
  induction s as [|c s IH]; intros [|k] Hk; cbn in *; try lia.
  - reflexivity.
  - by rewrite string_app_empty_l, substring_all.
  - rewrite string_app_cons. f_equal. apply IH. lia.
Qed.

Lemma get_Some_lt (s : string) : forall i c,
  String.get i s = Some c -> (i < String.length s)%nat.
Proof.
  induction s as [|x s IH]; intros [|i] c; cbn; try discriminate; [lia|].
  intros H. apply IH in H. lia.
Qed.

(** [Ext] answers a suffix of the path. *)
Lemma ext_loop_suffix path : forall n, exists k : nat,
  (k <= String.length path)%nat /\
  ext_loop path n = String.substring k (String.length path - k) path.
Proof.
  assert (exists k : nat, (k <= String.length path)%nat /\
            "" = String.substring k (String.length path - k) path) as Hnil.
  { exists (String.length path). split; [lia|].
    by rewrite Nat.sub_diag, substring_none. }
  induction n as [|i IH]; cbn [ext_loop]; [done|].
  destruct (String.get i path) as [c|] eqn:Hget; [|done].
  destruct (IsPathSeparator c); [done|].
  destruct (Ascii.eqb c "."); [|done].
  apply get_Some_lt in Hget. exists i. split; [lia|].
  unfold slice, len. f_equal; lia.
Qed.

Lemma substring_get (s : string) : forall (i : nat) c (m : nat),
  String.get i s = Some c ->
  String.substring i (S m) s = String c (String.substring (S i) m s).
Proof.
  induction s as [|x s IH]; intros [|i] c m; cbn; try discriminate.
  - by intros [= ->].
  - intros H. by rewrite (IH i c m H).
Qed.

Lemma ext_loop_dot path : forall n,
  ext_loop path n = "" \/ exists rest, ext_loop path n = String "." rest.
Proof.
  induction n as [|i IH]; cbn [ext_loop]; [by left|].
  destruct (String.get i path) as [c|] eqn:Hget; [|by left].
  destruct (IsPathSeparator c); [by left|].
  destruct (Ascii.eqb_spec c ".") as [->|_]; [|done].
  right. pose proof (get_Some_lt _ _ _ Hget) as Hlt.
  unfold slice, len.
  replace (Z.to_nat (Z.of_nat (String.length path) - Z.of_nat i))
    with (S (String.length path - S i)) by lia.
  rewrite Nat2Z.id, (substring_get _ _ _ _ Hget). by eexists.
Qed.

(** The extension is empty or begins with a dot. *)
Lemma Ext_dot path :
  Ext path = "" \/ exists rest, Ext path = String "." rest.
Proof. apply ext_loop_dot. Qed.

(** The path is what [TrimSuffix] keeps, then its extension. *)
Lemma TrimSuffix_Ext path : TrimSuffix path (Ext path) +:+ Ext path = path.
Proof.
  unfold Ext.
  destruct (ext_loop_suffix path (String.length path)) as (k & Hk & ->).
  set (suffix := String.substring k (String.length path - k) path).
  assert (String.length suffix = (String.length path - k)%nat) as Hlen
    by (apply substring_length; lia).
  unfold TrimSuffix, HasSuffix, slice, len. rewrite Hlen.
  replace (Z.to_nat (Z.of_nat (String.length path) -
                     Z.of_nat (String.length path - k))) with k by lia.
  replace (Z.to_nat (Z.of_nat (String.length path) -
             (Z.of_nat (String.length path) -
              Z.of_nat (String.length path - k))))
    with (String.length path - k)%nat by lia.
  fold suffix. rewrite String.eqb_refl.
  destruct (Z.leb_spec (Z.of_nat (String.length path - k))
              (Z.of_nat (String.length path))) as [_|?]; [|lia].
  cbn [andb].
  replace (Z.to_nat (Z.of_nat (String.length path) -
                     Z.of_nat (String.length path - k) - 0))
    with k by lia.
  change (Z.to_nat 0) with 0%nat.
  by apply substring_split.
Qed.

Lemma default_output_given input output suffix :
  is_empty output = false -> default_output input output suffix = output.
Proof. unfold default_output. by intros ->. Qed.

Lemma default_output_derived input suffix :
  default_output input "" suffix =
    TrimSuffix input (Ext input) +:+ suffix.
Proof. reflexivity. Qed.

End PathFacts.

(** ** Facts on the goroutines of [summarizeText] *)

Section GoroutineFacts.
Context (env : Env) (apiKey model : string) (ratio : spec_float)
        (chunks : list string).

(** The channel after the goroutines of [order] have ended, in that
    order. *)
Lemma goroutines_errChan (order : list nat) : forall st,
  errChan (fold_left (goroutine_end env apiKey model ratio chunks) order st)
    = errChan st ++ omap (sent_error env apiKey model ratio chunks) order.
Proof.
  induction order as [|idx order IH]; intros st; cbn [fold_left].
  - cbn. by rewrite app_nil_r.
  - rewrite IH. cbn [omap list_omap].
    unfold goroutine_end, sent_error at 2, request_outcome.
    destruct (chunks !! idx) as [text|]; [|done].
    destruct (chat env apiKey idx _) as [err|content]; cbn [errChan];
      by rewrite <- ?List.app_assoc.
Qed.

Lemma run_goroutines_errChan :
  errChan (run_goroutines env apiKey model ratio chunks) =
    omap (sent_error env apiKey model ratio chunks)
      (completion env (length chunks)).
Proof. unfold run_goroutines. by rewrite goroutines_errChan. Qed.

(** The slice when no append misses another. *)
Lemma goroutines_summaries_in_step (order : list nat) :
  (forall idx, stale env idx = 0%nat) ->
  forall st,
    summaries
      (fold_left (goroutine_end env apiKey model ratio chunks) order st) =
    summaries st ++ omap (fragment env apiKey model ratio chunks) order.
Proof.
  intros Hstale.
  induction order as [|idx order IH]; intros st; cbn [fold_left].
  - cbn. by rewrite app_nil_r.
  - rewrite IH. cbn [omap list_omap].
    unfold goroutine_end, fragment at 2, request_outcome.
    destruct (chunks !! idx) as [text|]; [|done].
    destruct (chat env apiKey idx _) as [err|content]; cbn [summaries];
      [done|].
    rewrite Hstale. cbn [nth]. by rewrite <- List.app_assoc.
Qed.

(** The head of a list of results is the result of the first element
    that has one. *)
Lemma omap_first {A B} (f : A -> option B) (l : list A) x y :
  In x l -> f x = Some y ->
  exists pre j post z,
    l = pre ++ j :: post /\ (forall i, In i pre -> f i = None) /\
    f j = Some z /\ omap f l = z :: omap f post.
Proof.
  induction l as [|a l IH]; intros Hin Hx; [destruct Hin|].
  destruct (f a) as [z|] eqn:Ha.
  - exists [], a, l, z. cbn. rewrite Ha. by repeat split.
  - destruct Hin as [->|Hin]; [congruence|].
    destruct (IH Hin Hx) as (pre & j & post & z & -> & Hpre & Hj & Hl).
    exists (a :: pre), j, post, z. cbn. rewrite Ha, Hl.
    repeat split; try done.
    intros i [<-|Hi]; [done | by apply Hpre].
Qed.

Lemma omap_none {A B} (f : A -> option B) (l : list A) :
  (forall x, In x l -> f x = None) -> omap f l = [].
Proof.
  induction l as [|a l IH]; intros H; [done|].
  cbn. rewrite (H a) by (by left). apply IH. intros x ?. apply H. by right.
Qed.

End GoroutineFacts.

(** ** Facts on texts without words *)

Section WhitespaceFacts.
Import Strings.

Lemma fields_loop_spaces f (l : list (Z * Z)) :
  Forall (fun er => f er.2 = true) l ->
  fold_left (fields_step f) l (-1, []) = (-1, []).
Proof.
  induction 1 as [|[o r] l Hr _ IH]; [done|].
  cbn [fold_left]. cbn in Hr.
  unfold fields_step at 2. by rewrite Hr.
Qed.

Lemma Fields_only_whitespace text :
  only_whitespace text -> Fields text = [].
Proof.
  intros H. unfold Fields, FieldsFunc, field_spans.
  by rewrite (fields_loop_spaces _ _ H).
Qed.

End WhitespaceFacts.

(** ** The chunker on a text *)

Section SplitFacts.
Import Strings.

(** The shape of the chunks of a text that fits an [int]. *)
Lemma split_shape text cs :
  len text < GoInt.max_int ->
  exists tl,
    splitTextIntoChunks text cs =
      (if first_overflows (Fields text) cs then "" :: tl else tl) /\
    Forall (good_chunk cs (Fields text)) tl /\
    Join tl " " = Join (Fields text) " ".
Proof.
  intros Hlen. apply chunk_words_shape.
  - apply FieldsFunc_nonempty.
  - pose proof (FieldsFunc_weight text Utf8.IsSpace). unfold Fields. lia.
Qed.

(** When the first word and a separator fit the budget, the chunks
    joined by single spaces are the words joined by single spaces. *)
Lemma chunks_join_when_first_fits text cs :
  len text < GoInt.max_int ->
  first_overflows (Fields text) cs = false ->
  Join (splitTextIntoChunks text cs) " " = Join (Fields text) " ".
Proof.
  intros Hlen Hfirst.
  destruct (split_shape text cs Hlen) as (tl & -> & _ & Hjoin).
  by rewrite Hfirst.
Qed.

(** Under a budget that is not negative, every chunk is within the
    budget or is one word beyond it. *)
Lemma chunks_within_budget text cs :
  len text < GoInt.max_int -> 0 <= cs ->
  Forall (chunk_ok cs (Fields text)) (splitTextIntoChunks text cs).
Proof.
  intros Hlen Hcs.
  destruct (split_shape text cs Hlen) as (tl & -> & Hgood & _).
  assert (Forall (chunk_ok cs (Fields text)) tl) as Htl.
  { eapply Forall_impl; [exact Hgood|]. by intros c [_ Hc]. }
  destruct (first_overflows _ _); [|done].
  constructor; [|done]. left. by rewrite len_empty.
Qed.

(** Chunks come out exactly when there are words. *)
Lemma no_chunks_iff_no_words text cs :
  len text < GoInt.max_int ->
  splitTextIntoChunks text cs = [] <-> Fields text = [].
Proof.
  intros Hlen. split.
  - destruct (split_shape text cs Hlen) as (tl & -> & Hgood & Hjoin).
    destruct (Fields text) as [|w ws] eqn:Hf; [done|].
    cbn [first_overflows].
    destruct (_ >? cs); [done|]. intros ->.
    pose proof (FieldsFunc_nonempty text Utf8.IsSpace) as Hne.
    fold (Fields text) in Hne. rewrite Hf in Hne.
    apply Forall_cons in Hne as [Hw _].
    destruct ws as [|w' ws]; cbn in Hjoin.
    + subst w. rewrite len_empty in Hw. lia.
    + destruct w; [rewrite len_empty in Hw; lia | discriminate Hjoin].
  - intros H. unfold splitTextIntoChunks. by rewrite H.
Qed.

End SplitFacts.

(** ** Facts on the writing of files *)

Section WriteFacts.

Lemma write_result_full env path data :
  can_write env path = true -> Os.write_result env path data = Os.Written.
Proof. unfold Os.write_result. by intros ->. Qed.

Lemma WriteFile_full env (w : World) path data :
  can_write env path = true ->
  Os.WriteFile env w path data = (None, <[path := data]> w).
Proof. intros H. unfold Os.WriteFile. by rewrite write_result_full. Qed.

(** Nothing breaks off the writing of no byte. *)
Lemma write_result_empty env path :
  Os.write_result env path "" =
    if can_write env path then Os.Written else Os.NotOpened.
Proof.
  unfold Os.write_result. destruct (can_write env path); [done|].
  destruct (write_stops env path) as [n|]; [|done].
  rewrite len_empty. by destruct (Z.ltb_spec (Z.of_nat n) 0); [lia|].
Qed.

(** Writing a file leaves the other files as they are. *)
Lemma WriteFile_other_files env (w : World) path data other :
  other <> path -> (Os.WriteFile env w path data).2 !! other = w !! other.
Proof.
  intros Hne. unfold Os.WriteFile.
  destruct (Os.write_result env path data); cbn [snd];
    by rewrite ?lookup_insert_ne.
Qed.

End WriteFacts.

(** ** Facts on the subcommands *)

Section CommandFacts.

(** [transcribe] writes the transcription at its output path. *)
Lemma transcribeCommand_writes env config fl w audio words :
  is_empty (flag_i fl) = false ->
  w !! flag_i fl = Some audio ->
  transcription env (OpenAIAPIKey config) (Model config) audio = inr words ->
  can_write env (transcribe_output fl) = true ->
  transcribeCommand env config fl w =
    (None, <[transcribe_output fl := words]> w).
Proof.
  intros Hi Hw Hwords Hcan.
  unfold transcribeCommand, transcribeAudio, Os.ReadFile.
  by rewrite Hi, Hw, Hwords, write_result_full.
Qed.

(** [summarize] hands the ratio it has accepted and its output path over
    to [summarizeText]. *)
Lemma summarizeCommand_accepted env config fl w :
  is_empty (flag_i fl) = false ->
  ratio_in_range (flag_ratio fl) = true ->
  summarizeCommand env config fl w =
    match summarizeText env (OpenAIAPIKey config) (Model config)
            (flag_i fl) (summarize_output fl) (flag_ratio fl) w with
    | (Some err, w') => (Some (Wrap "生成摘要失败" err), w')
    | (None, w') => (None, w')
    end.
Proof.
  intros Hi [Hlo Hhi]%in_range_not_rejected.
  unfold summarizeCommand. by rewrite Hi, Hlo, Hhi.
Qed.

(** A NaN is neither below 0.1 nor above 0.5: [summarize] lets it
    through, and [summarizeText] leaves it as it is. *)
Lemma nan_ratio_not_rejected :
  Float64.lt S754_nan Float64.c0_1 || Float64.gt S754_nan Float64.c0_5 =
    false /\
  clamp_ratio S754_nan = S754_nan.
Proof. by vm_compute. Qed.

End CommandFacts.

(** ** The claims of the specification *)

Section Claims.
Import Strings.

(** C1, as the code has it: on the input "a b c d" with chunk size 3,
    [splitTextIntoChunks] packs two words a chunk and returns exactly
    the chunks "a b" and "c d". *)
Theorem split_abcd_budget_3 :
  splitTextIntoChunks "a b c d" 3 = ["a b"; "c d"].
Proof. by vm_compute. Qed.

(** C1, as the spec states it, fails: the chunks of "a b c d" under the
    budget 3 are not the four words. *)
Lemma split_abcd_budget_3_not_words :
  splitTextIntoChunks "a b c d" 3 <> ["a"; "b"; "c"; "d"].
Proof. vm_compute. discriminate. Qed.

(** The four words of "a b c d" are the chunks under the budget 2. *)
Example split_abcd_budget_2 :
  splitTextIntoChunks "a b c d" 2 = ["a"; "b"; "c"; "d"].
Proof. by vm_compute. Qed.

(** C2 at its failing input: for the text "xxxxx" and the budget 3 the
    chunks joined by single spaces are " xxxxx", with a space in front,
    while the words joined by single spaces are "xxxxx". *)
Theorem join_of_chunks_long_first_word :
  Join (splitTextIntoChunks "xxxxx" 3) " " = " xxxxx" /\
  Join (Fields "xxxxx") " " = "xxxxx" /\
  Join (splitTextIntoChunks "xxxxx" 3) " " <> Join (Fields "xxxxx") " ".
Proof. repeat split; try by vm_compute. Qed.



(** C4: for every chunk size, the empty string, a text of whitespace
    only and, more generally, a text without words give no chunk. *)
Theorem no_words_no_chunks (text : string) (chunkSize : Z) :
  text = "" \/ only_whitespace text \/ Fields text = [] ->
  splitTextIntoChunks text chunkSize = [].
Proof.
  unfold splitTextIntoChunks.
  intros [->|[H|H]].
  - reflexivity.
  - by rewrite (Fields_only_whitespace text H).
  - by rewrite H.
Qed.

(** C5: [summarize] answers a ratio below 0.1 or above 0.5 with an
    error, the same whatever the environment and with the files
    untouched (the error of the ratio as soon as [-i] is given), and
    never answers a ratio inside [0.1, 0.5] with that error. *)
Theorem summarize_ratio_check (env : Env) (config : Config) (fl : Flags)
    (w : World) :
  (Float64.lt (flag_ratio fl) Float64.c0_1 = true \/
   Float64.gt (flag_ratio fl) Float64.c0_5 = true ->
   exists err,
     (forall env', summarizeCommand env' config fl w = (Some err, w)) /\
     (flag_i fl <> "" -> err = ratio_error)) /\
  (ratio_in_range (flag_ratio fl) = true ->
   (summarizeCommand env config fl w).1 <> Some ratio_error).
Proof.
  unfold summarizeCommand. split.
  - intros Hout.
    assert (Float64.lt (flag_ratio fl) Float64.c0_1 ||
            Float64.gt (flag_ratio fl) Float64.c0_5 = true) as ->
      by (apply orb_true_iff; exact Hout).
    destruct (is_empty (flag_i fl)) eqn:Hi.
    + eexists. split; [done|]. apply is_empty_true in Hi. congruence.
    + by exists ratio_error.
  - intros [-> ->]%in_range_not_rejected. cbn [orb].
    destruct (is_empty (flag_i fl)); [discriminate|].
    destruct (summarizeText _ _ _ _ _ _ _) as [[err|] w']; discriminate.
Qed.



(** C7: without [-o], the output path is the input path without its
    extension, followed by ".txt" for [generate] and [transcribe] and
    by ".summary.txt" for [summarize]: "video.mp4" gives "video.txt"
    and "transcript.txt" gives "transcript.summary.txt"; a [-o] that is
    given is the output path. *)
Theorem default_output_paths (fl : Flags) :
  (flag_o fl = "" ->
   exists stem,
     flag_i fl = stem +:+ Filepath.Ext (flag_i fl) /\
     generate_output fl = stem +:+ ".txt" /\
     transcribe_output fl = stem +:+ ".txt" /\
     summarize_output fl = stem +:+ ".summary.txt") /\
  (flag_o fl <> "" ->
   generate_output fl = flag_o fl /\
   transcribe_output fl = flag_o fl /\
   summarize_output fl = flag_o fl) /\
  (forall ratio,
     generate_output
       {| flag_i := "video.mp4"; flag_o := ""; flag_ratio := ratio |} =
       "video.txt" /\
     transcribe_output
       {| flag_i := "video.mp4"; flag_o := ""; flag_ratio := ratio |} =
       "video.txt" /\
     summarize_output
       {| flag_i := "transcript.txt"; flag_o := "";
          flag_ratio := ratio |} = "transcript.summary.txt").
Proof.
  unfold generate_output, transcribe_output, summarize_output.
  split; [|split].
  - intros ->. exists (TrimSuffix (flag_i fl) (Filepath.Ext (flag_i fl))).
    split; [by rewrite TrimSuffix_Ext | done].
  - intros Ho.
    assert (is_empty (flag_o fl) = false) as He.
    { destruct (is_empty (flag_o fl)) eqn:E; [|done].
      by apply is_empty_true in E. }
    by rewrite !default_output_given.
  - intros ratio. by vm_compute.
Qed.

(** C8: when the request of one chunk fails, [summarizeText] returns the
    first error of the channel, which is the error of the first
    goroutine, in the order of completion, whose request failed, and
    the files are left as they were: no summary is written. *)
Theorem request_error_fails_summarizeText (env : Env)
    (apiKey model inputPath outputPath : string) (ratio : spec_float)
    (w : World) (transcript : string) (idx : nat) (text : string)
    (err : error) :
  w !! inputPath = Some transcript ->
  fair_completion env (length (splitTextIntoChunks transcript 3000)) ->
  splitTextIntoChunks transcript 3000 !! idx = Some text ->
  chat env apiKey idx (chat_request model text (clamp_ratio ratio)) =
    inl err ->
  exists first rest,
    errChan (run_goroutines env apiKey model (clamp_ratio ratio)
               (splitTextIntoChunks transcript 3000)) = first :: rest /\
    summarizeText env apiKey model inputPath outputPath ratio w =
      (Some first, w) /\
    exists pre j post cause,
      completion env (length (splitTextIntoChunks transcript 3000)) =
        pre ++ j :: post /\
      (forall i, In i pre ->
         sent_error env apiKey model (clamp_ratio ratio)
           (splitTextIntoChunks transcript 3000) i = None) /\
      request_outcome env apiKey model (clamp_ratio ratio)
        (splitTextIntoChunks transcript 3000) j = Some (inl cause) /\
      first = WrapPart (Z.of_nat j + 1) cause.
Proof.
  intros Hw Hfair Hidx Hchat.
  set (chunks := splitTextIntoChunks transcript 3000) in *.
  assert (In idx (completion env (length chunks))) as Hin.
  { apply (Permutation_in idx (Permutation_sym Hfair)).
    apply in_seq. apply lookup_lt_Some in Hidx. lia. }
  assert (sent_error env apiKey model (clamp_ratio ratio) chunks idx =
            Some (WrapPart (Z.of_nat idx + 1) err)) as Hsent.
  { unfold sent_error, request_outcome. by rewrite Hidx, Hchat. }
  destruct (omap_first _ _ _ _ Hin Hsent)
    as (pre & j & post & first & Hsplit & Hpre & Hj & Hall).
  exists first, (omap (sent_error env apiKey model (clamp_ratio ratio)
                         chunks) post).
  assert (errChan (run_goroutines env apiKey model (clamp_ratio ratio)
                     chunks) = first :: omap (sent_error env apiKey model
                       (clamp_ratio ratio) chunks) post) as Hchan.
  { rewrite run_goroutines_errChan. exact Hall. }
  split; [exact Hchan|]. split.
  - unfold summarizeText, Os.ReadFile. rewrite Hw.
    fold chunks. by rewrite Hchan.
  - unfold sent_error in Hj.
    destruct (request_outcome env apiKey model (clamp_ratio ratio)
                chunks j) as [[cause|content]|] eqn:Hout;
      try discriminate Hj.
    injection Hj as <-.
    by exists pre, j, post, cause.
Qed.

(** C9: when the current chunk is empty and the length of the next word
    plus one exceeds the chunk size, the loop appends the empty string
    to the chunks; so a text whose first word is that long has the
    empty string as its first chunk, as "xxxxx" under the budget 3,
    whose chunks are the empty string and "xxxxx". *)
Theorem empty_chunk_before_long_first_word :
  (forall chunkSize chunks word,
     len word + 1 <= GoInt.max_int -> chunkSize < len word + 1 ->
     chunk_step chunkSize (chunks, "") word = (chunks ++ [""], word)) /\
  (forall text chunkSize word rest,
     len text < GoInt.max_int ->
     Fields text = word :: rest -> chunkSize < len word + 1 ->
     exists tl, splitTextIntoChunks text chunkSize = "" :: tl) /\
  splitTextIntoChunks "xxxxx" 3 = [""; "xxxxx"].
Proof.
  split; [|split].
  - intros cs chunks word Hfit Hlong.
    destruct (chunk_step_cases cs chunks "" word) as
      [[_ H]|[(Hle & _)|(Hle & _)]]; rewrite ?len_empty in *;
      [lia | done | lia | lia].
  - intros text cs word rest Hlen Hf Hlong.
    destruct (split_shape text cs Hlen) as (tl & -> & _).
    rewrite Hf. cbn [first_overflows].
    destruct (Z.gtb_spec (len word + 1) cs) as [_|?]; [|lia].
    by exists tl.
  - by vm_compute.
Qed.

(** C10: when every request is answered with a first choice and the
    output can be written in full, [summarizeText] writes at the output
    path the fragments that the slice [summaries] holds once the
    goroutines have ended, joined by the separator of the source as it
    stands: its "%d" is in the file between every two fragments, no
    number takes its place.  The slice holds the answers in the order in
    which the goroutines have ended when no append has missed
    another. *)
Theorem summary_joined_with_literal_separator (env : Env)
    (apiKey model inputPath outputPath : string) (ratio : spec_float)
    (w : World) (transcript : string) :
  w !! inputPath = Some transcript ->
  (forall idx text,
     splitTextIntoChunks transcript 3000 !! idx = Some text ->
     exists content,
       chat env apiKey idx (chat_request model text (clamp_ratio ratio)) =
         inr content) ->
  can_write env outputPath = true ->
  summarizeText env apiKey model inputPath outputPath ratio w =
    (None,
     <[outputPath :=
         Join (summaries
                 (run_goroutines env apiKey model (clamp_ratio ratio)
                    (splitTextIntoChunks transcript 3000)))
           summary_separator]> w) /\
  summary_separator =
    String "010" (String "010" "--- 第") +:+ "%d" +:+
    "部分结束 ---" +:+ String "010" (String "010" "") /\
  (forall a b rest,
     Join (a :: b :: rest) summary_separator =
       a +:+ summary_separator +:+ Join (b :: rest) summary_separator) /\
  ((forall idx, stale env idx = 0%nat) ->
   summaries
     (run_goroutines env apiKey model (clamp_ratio ratio)
        (splitTextIntoChunks transcript 3000)) =
   omap (fragment env apiKey model (clamp_ratio ratio)
           (splitTextIntoChunks transcript 3000))
     (completion env (length (splitTextIntoChunks transcript 3000)))).
Proof.
  intros Hw Hall Hcan.
  split; [|split; [by vm_compute | split; [done|]]].
  - unfold summarizeText, Os.ReadFile. rewrite Hw.
    rewrite run_goroutines_errChan, omap_none.
    + by rewrite WriteFile_full.
    + intros idx _. unfold sent_error, request_outcome.
      destruct (_ !! idx) as [text|] eqn:Hidx; [|done].
      destruct (Hall idx text Hidx) as [content ->]. done.
  - intros Hstale. unfold run_goroutines.
    by rewrite goroutines_summaries_in_step.
Qed.

End Claims.


(** ** The claims at sample inputs *)

Section Witnesses.
Import Strings.

(** A space and a line feed: no word, no chunk. *)
Lemma no_words_no_chunks_witness :
  only_whitespace (String " " (String "010" "")) /\
  splitTextIntoChunks (String " " (String "010" "")) 3000 = [].
Proof.
  assert (only_whitespace (String " " (String "010" ""))) as H.
  { unfold only_whitespace. vm_compute. repeat constructor. }
  split; [exact H|].
  apply (no_words_no_chunks (String " " (String "010" "")) 3000).
  right. left. exact H.
Defined.


(** [summarize -i transcript.txt -ratio 0] is refused with the error of
    the ratio; [-ratio 0.2] is not. *)
Lemma summarize_ratio_check_witness :
  Float64.lt Demo.ratio_zero Float64.c0_1 = true /\
  (exists err,
     (forall env',
        summarizeCommand env' Demo.config (Demo.flags Demo.ratio_zero)
          Demo.world = (Some err, Demo.world)) /\
     (flag_i (Demo.flags Demo.ratio_zero) <> "" -> err = ratio_error)) /\
  ratio_in_range Float64.c0_2 = true /\
  (summarizeCommand Demo.env_ok Demo.config (Demo.flags Float64.c0_2)
     Demo.world).1 <> Some ratio_error.
Proof.
  split; [reflexivity|]. split.
  - apply (proj1 (summarize_ratio_check Demo.env_ok Demo.config
                    (Demo.flags Demo.ratio_zero) Demo.world)).
    left. reflexivity.
  - split; [reflexivity|].
    apply (proj2 (summarize_ratio_check Demo.env_ok Demo.config
                    (Demo.flags Float64.c0_2) Demo.world)).
    reflexivity.
Defined.


(** [-i transcript.txt] without [-o]. *)
Lemma default_output_paths_witness :
  flag_o (Demo.flags Float64.c0_2) = "" /\
  exists stem,
    flag_i (Demo.flags Float64.c0_2) =
      stem +:+ Filepath.Ext (flag_i (Demo.flags Float64.c0_2)) /\
    generate_output (Demo.flags Float64.c0_2) = stem +:+ ".txt" /\
    transcribe_output (Demo.flags Float64.c0_2) = stem +:+ ".txt" /\
    summarize_output (Demo.flags Float64.c0_2) = stem +:+ ".summary.txt".
Proof.
  split; [reflexivity|].
  apply (proj1 (default_output_paths (Demo.flags Float64.c0_2))).
  reflexivity.
Defined.

(** The one chunk of "a b c d" and an API that refuses. *)
Lemma request_error_fails_summarizeText_witness :
  exists first rest,
    errChan (run_goroutines Demo.env_failing "sk-test" "gpt-3.5-turbo"
               (clamp_ratio Float64.c0_2)
               (splitTextIntoChunks "a b c d" 3000)) = first :: rest /\
    summarizeText Demo.env_failing "sk-test" "gpt-3.5-turbo"
      "transcript.txt" "transcript.summary.txt" Float64.c0_2 Demo.world =
      (Some first, Demo.world) /\
    exists pre j post cause,
      completion Demo.env_failing
        (length (splitTextIntoChunks "a b c d" 3000)) = pre ++ j :: post /\
      (forall i, In i pre ->
         sent_error Demo.env_failing "sk-test" "gpt-3.5-turbo"
           (clamp_ratio Float64.c0_2)
           (splitTextIntoChunks "a b c d" 3000) i = None) /\
      request_outcome Demo.env_failing "sk-test" "gpt-3.5-turbo"
        (clamp_ratio Float64.c0_2)
        (splitTextIntoChunks "a b c d" 3000) j = Some (inl cause) /\
      first = WrapPart (Z.of_nat j + 1) cause.
Proof.
  apply (request_error_fails_summarizeText Demo.env_failing "sk-test"
           "gpt-3.5-turbo" "transcript.txt" "transcript.summary.txt"
           Float64.c0_2 Demo.world "a b c d" 0%nat "a b c d"
           (External "status code: 429")).
  - reflexivity.
  - unfold fair_completion. vm_compute. reflexivity.
  - reflexivity.
  - reflexivity.
Defined.

(** The text "xxxxx" under the budget 3. *)
Lemma empty_chunk_before_long_first_word_witness :
  len "xxxxx" < GoInt.max_int /\
  Fields "xxxxx" = ["xxxxx"] /\
  3 < len "xxxxx" + 1 /\
  exists tl, splitTextIntoChunks "xxxxx" 3 = "" :: tl.
Proof.
  split; [reflexivity|]. split; [reflexivity|]. split; [reflexivity|].
  apply (proj1 (proj2 empty_chunk_before_long_first_word)
           "xxxxx" 3 "xxxxx" []); reflexivity.
Defined.

(** A transcript of two chunks and an API that answers: the file holds
    the two fragments with the separator, its "%d" included, between
    them. *)
Lemma summary_joined_with_literal_separator_witness :
  exists c0 c1,
    splitTextIntoChunks Demo.long_transcript 3000 = [c0; c1] /\
    summarizeText Demo.env_ok "sk-test" "gpt-3.5-turbo" "transcript.txt"
      "transcript.summary.txt" Float64.c0_2 Demo.long_world =
      (None,
       <["transcript.summary.txt" :=
           ("summary of " +:+ c0) +:+
           String "010" (String "010" "--- 第%d部分结束 ---") +:+
           String "010" (String "010" "") +:+
           ("summary of " +:+ c1)]> Demo.long_world).
Proof.
  destruct (summary_joined_with_literal_separator Demo.env_ok "sk-test"
              "gpt-3.5-turbo" "transcript.txt" "transcript.summary.txt"
              Float64.c0_2 Demo.long_world Demo.long_transcript)
    as (Hrun & _ & _ & _).
  - reflexivity.
  - intros idx text _. eexists. reflexivity.
  - reflexivity.
  - eexists _, _. split; [by vm_compute|].
    rewrite Hrun. by vm_compute.
Defined.

End Witnesses.


(** ** More on the chunker: the chunks as runs of words *)

Section ChunkRuns.
Import Strings.

Lemma Join_nonempty (g : list string) :
  g <> [] -> Forall (fun w => 0 < len w) g -> 0 < len (Join g " ").
Proof.
  destruct g as [|x g]; [done|]. intros _ Hne.
  apply Forall_cons in Hne as [Hx _].
  destruct g as [|y g]; [by rewrite Join_single|].
  rewrite Join_cons, len_app. pose proof (len_nonneg (" " +:+ Join (y :: g) " ")).
  lia.
Qed.

Lemma Join_snoc (g : list string) w sep :
  g <> [] -> Join (g ++ [w]) sep = Join g sep +:+ sep +:+ w.
Proof.
  induction g as [|x g IH]; [done|]. intros _.
  destruct g as [|y g]; [done|].
  cbn [app] in *. rewrite !(Join_cons x), IH by done.
  by rewrite !string_app_assoc.
Qed.

(** The loop from a state whose current chunk is the run [g]. *)
Lemma chunk_loop_groups cs ws : forall chunks g,
  g <> [] -> Forall (fun w => 0 < len w) g ->
  Forall (fun w => 0 < len w) ws ->
  group_ok cs g ->
  len (Join g " ") + words_weight ws <= GoInt.max_int ->
  exists g1 rest,
    chunk_finish (fold_left (chunk_step cs) ws (chunks, Join g " ")) =
      chunks ++ map (fun g => Join g " ") ((g ++ g1) :: rest) /\
    g1 ++ concat rest = ws /\
    Forall (fun g => g <> []) rest /\
    Forall (group_ok cs) ((g ++ g1) :: rest) /\
    greedy_groups cs ((g ++ g1) :: rest).
Proof.
  induction ws as [|w ws IH]; intros chunks g Hg Hgne Hne Hok Hb.
  - exists [], []. rewrite app_nil_r. cbn [fold_left chunk_finish map].
    pose proof (Join_nonempty g Hg Hgne) as Hpos.
    apply is_empty_false in Hpos as ->.
    split; [done|]. split; [done|]. split; [constructor|].
    split; [by constructor | done].
  - cbn [fold_left]. cbn [words_weight] in Hb.
    pose proof (words_weight_nonneg ws) as Hw.
    apply Forall_cons in Hne as [Hwpos Hne].
    pose proof (Join_nonempty g Hg Hgne) as Hpos.
    destruct (chunk_step_cases cs chunks (Join g " ") w) as
      [[Hgt ->]|[(Hle & Hnil & _)|(Hle & _ & ->)]]; [lia | | |].
    + destruct (IH (chunks ++ [Join g " "]) [w]) as
        (g1 & rest & Hfin & Hcat & Hrest & Hoks & Hgreedy); try done.
      * by constructor.
      * by right; exists w.
      * rewrite Join_single. lia.
      * exists [], (([w] ++ g1) :: rest). rewrite app_nil_r.
        rewrite Join_single in Hfin. rewrite Hfin.
        split; [by rewrite <- List.app_assoc|].
        split; [cbn; by rewrite Hcat|].
        split; [by constructor|].
        split; [by constructor|].
        cbn [greedy_groups app]. split; [lia | exact Hgreedy].
    + rewrite Hnil, len_empty in Hpos. lia.
    + rewrite <- (Join_snoc g w " ") by done.
      destruct (IH chunks (g ++ [w])) as
        (g1 & rest & Hfin & Hcat & Hrest & Hoks & Hgreedy).
      * by destruct g.
      * apply Forall_app. split; [done | by constructor].
      * done.
      * left. rewrite Join_snoc, !len_app by done.
        change (len " ") with 1. lia.
      * rewrite Join_snoc, !len_app by done. change (len " ") with 1. lia.
      * exists (w :: g1), rest.
        rewrite <- List.app_assoc in Hfin, Hoks, Hgreedy.
        split; [exact Hfin|].
        split; [cbn; by rewrite Hcat|].
        split; [done|]. split; [exact Hoks | exact Hgreedy].
Qed.

(** The chunks of a list of words: after the empty chunk of an
    overflowing first word, the runs of a cutting of the words, each
    joined by single spaces. *)
Lemma chunk_words_groups ws cs :
  Forall (fun w => 0 < len w) ws ->
  words_weight ws <= GoInt.max_int ->
  exists groups,
    concat groups = ws /\
    Forall (fun g => g <> []) groups /\
    chunk_words ws cs =
      (if first_overflows ws cs then [""] else []) ++
      map (fun g => Join g " ") groups /\
    Forall (group_ok cs) groups /\
    greedy_groups cs groups.
Proof.
  intros Hne Hb. destruct ws as [|w ws].
  - exists []. split; [done|]. split; [constructor|].
    split; [done|]. split; [constructor | done].
  - apply Forall_cons in Hne as Hne'. destruct Hne' as [Hwpos Hne'].
    cbn [words_weight] in Hb. pose proof (words_weight_nonneg ws) as Hw.
    unfold chunk_words. cbn [fold_left first_overflows].
    assert (exists pre,
              chunk_step cs ([], "") w = (pre, Join [w] " ") /\
              pre = if len w + 1 >? cs then [""] else []) as (pre & -> & Hpre).
    { destruct (chunk_step_cases cs [] "" w) as
        [[Hgt ->]|[(Hle & _ & ->)|(_ & Hpos & _)]];
        rewrite ?len_empty in *; try lia.
      - eexists. split; [done|].
        by destruct (Z.gtb_spec (len w + 1) cs); [|lia].
      - eexists. split; [done|].
        by destruct (Z.gtb_spec (len w + 1) cs); [lia|]. }
    destruct (chunk_loop_groups cs ws pre [w]) as
      (g1 & rest & Hfin & Hcat & Hrest & Hoks & Hgreedy); try done.
    + by constructor.
    + by right; exists w.
    + rewrite Join_single. lia.
    + exists (([w] ++ g1) :: rest). rewrite Hfin, Hpre.
      split; [cbn; by rewrite Hcat|].
      split; [by constructor|]. done.
Qed.

End ChunkRuns.

(** ** More on the chunker: properties of the chunks of a text *)

Section ChunkerProperties.
Import Strings.

(** The chunks of a text are, after the empty chunk of an overflowing
    first word, the runs of a cutting of its words into runs of
    consecutive words, each run joined by single spaces: no word is lost,
    repeated or moved.  A run is within the budget unless it is one word,
    and it ends only where the next word would not fit. *)
Theorem chunks_are_runs_of_words (text : string) (chunkSize : Z) :
  len text < GoInt.max_int ->
  exists groups,
    concat groups = Fields text /\
    Forall (fun g => g <> []) groups /\
    splitTextIntoChunks text chunkSize =
      (if first_overflows (Fields text) chunkSize then [""] else []) ++
      map (fun g => Join g " ") groups /\
    Forall (group_ok chunkSize) groups /\
    greedy_groups chunkSize groups.
Proof.
  intros Hlen. apply chunk_words_groups.
  - apply FieldsFunc_nonempty.
  - pose proof (FieldsFunc_weight text Utf8.IsSpace). unfold Fields. lia.
Qed.

(** The loop appends every word to the current chunk while the words
    left, with their separators, fit the budget. *)
Lemma chunk_loop_fits cs ws : forall chunks g,
  g <> [] -> Forall (fun w => 0 < len w) g ->
  Forall (fun w => 0 < len w) ws ->
  len (Join g " ") + words_weight ws <= cs ->
  len (Join g " ") + words_weight ws <= GoInt.max_int ->
  fold_left (chunk_step cs) ws (chunks, Join g " ") =
    (chunks, Join (g ++ ws) " ").
Proof.
  induction ws as [|w ws IH]; intros chunks g Hg Hgne Hne Hcs Hb.
  - by rewrite app_nil_r.
  - cbn [fold_left]. cbn [words_weight] in Hcs, Hb.
    pose proof (words_weight_nonneg ws) as Hw.
    pose proof (Join_nonempty g Hg Hgne) as Hpos.
    apply Forall_cons in Hne as [Hwpos Hne].
    destruct (chunk_step_cases cs chunks (Join g " ") w) as
      [[Hgt _]|[(_ & Hnil & _)|(_ & _ & ->)]]; [lia | lia | |].
    + rewrite Hnil, len_empty in Hpos. lia.
    + rewrite <- (Join_snoc g w " ") by done.
      assert (len (Join (g ++ [w]) " ") = len (Join g " ") + 1 + len w)
        as Hlen.
      { rewrite Join_snoc, !len_app by done. change (len " ") with 1. lia. }
      rewrite IH.
      * by rewrite <- List.app_assoc.
      * by destruct g.
      * apply Forall_app. split; [done | by constructor].
      * done.
      * lia.
      * lia.
Qed.

(** Words that fit the budget with their separators make one chunk. *)
Lemma chunk_words_fit (ws : list string) (cs : Z) :
  Forall (fun w => 0 < len w) ws -> ws <> [] ->
  words_weight ws <= cs -> cs <= GoInt.max_int ->
  chunk_words ws cs = [Join ws " "].
Proof.
  intros Hne Hwords Hweight Hint. unfold chunk_words.
  destruct ws as [|w ws]; [done|].
  cbn [fold_left]. cbn [words_weight] in Hweight.
  pose proof (words_weight_nonneg ws) as Hw.
  apply Forall_cons in Hne as Hne'. destruct Hne' as [Hwpos Hne'].
  destruct (chunk_step_cases cs [] "" w) as
    [[Hgt _]|[(_ & _ & ->)|(_ & Hpos & _)]];
    rewrite ?len_empty in *; try lia.
  change w with (Join [w] " ") at 1.
  rewrite chunk_loop_fits; try done.
  - cbn [chunk_finish app].
    pose proof (Join_nonempty (w :: ws) ltac:(done) Hne) as Hpos.
    by apply is_empty_false in Hpos as ->.
  - by constructor.
  - rewrite Join_single. lia.
  - rewrite Join_single. lia.
Qed.

(** A text shorter than the budget, with a word in it, makes one chunk:
    its words joined by single spaces. *)
Theorem short_text_one_chunk (text : string) (chunkSize : Z) :
  len text < chunkSize -> chunkSize <= GoInt.max_int ->
  Fields text <> [] ->
  splitTextIntoChunks text chunkSize = [Join (Fields text) " "].
Proof.
  intros Hshort Hint Hwords.
  pose proof (FieldsFunc_weight text Utf8.IsSpace) as Hweight.
  fold (Fields text) in Hweight.
  unfold splitTextIntoChunks. apply chunk_words_fit; try done.
  - apply FieldsFunc_nonempty.
  - lia.
Qed.

(** The empty string is a chunk in the first place only, and there
    exactly when the first word and one separator exceed the budget. *)
Theorem empty_chunk_only_first (text : string) (chunkSize : Z) :
  len text < GoInt.max_int ->
  (forall i c,
     splitTextIntoChunks text chunkSize !! S i = Some c -> 0 < len c) /\
  (splitTextIntoChunks text chunkSize !! 0%nat = Some "" <->
   first_overflows (Fields text) chunkSize = true).
Proof.
  intros Hlen.
  destruct (split_shape text chunkSize Hlen) as (tl & -> & Hgood & _).
  assert (forall i c, tl !! i = Some c -> 0 < len c) as Htl.
  { intros i c Hi. apply (Forall_lookup_1 _ _ _ _ Hgood) in Hi.
    by destruct Hi. }
  destruct (first_overflows _ _).
  - split; [|done]. intros i c Hi. by apply (Htl i).
  - split; [intros i c Hi; by apply (Htl (S i))|].
    split; [|done]. intros H0. apply Htl in H0.
    rewrite len_empty in H0. lia.
Qed.

End ChunkerProperties.

(** ** More on [summarizeText] *)

Section SummarizeProperties.
Import Strings.

Context (env : Env) (apiKey model : string).

Lemma goroutines_no_chunks ratio (order : list nat) : forall st,
  fold_left (goroutine_end env apiKey model ratio []) order st = st.
Proof. induction order as [|idx order IH]; intros st; cbn; [done|apply IH]. Qed.

Lemma omap_nil_inv {A B} (f : A -> option B) (l : list A) :
  omap f l = [] -> forall x, In x l -> f x = None.
Proof.
  induction l as [|a l IH]; intros H x Hin; [destruct Hin|].
  cbn in H. destruct (f a) as [y|] eqn:Ha; [discriminate H|].
  destruct Hin as [<-|Hin]; [done | by apply IH].
Qed.

(** Every goroutine whose chunk there is leaves one error or one
    fragment. *)
Lemma outcomes_count ratio chunks (order : list nat) :
  (forall idx, In idx order -> is_Some (chunks !! idx)) ->
  (length (omap (sent_error env apiKey model ratio chunks) order) +
   length (omap (fragment env apiKey model ratio chunks) order) =
   length order)%nat.
Proof.
  induction order as [|idx order IH]; intros Hall; [done|].
  cbn [omap list_omap length].
  specialize (IH (fun i Hi => Hall i (or_intror Hi))).
  destruct (Hall idx (or_introl eq_refl)) as [text Htext].
  unfold sent_error at 1, fragment at 1, request_outcome. rewrite Htext.
  destruct (chat env apiKey idx _); cbn [length]; lia.
Qed.

Lemma fair_completion_In n idx :
  fair_completion env n -> In idx (completion env n) <-> (idx < n)%nat.
Proof.
  intros Hfair. split.
  - intros Hin. apply (Permutation_in idx Hfair) in Hin.
    apply in_seq in Hin. lia.
  - intros Hlt. apply (Permutation_in idx (Permutation_sym Hfair)).
    apply in_seq. lia.
Qed.

(** A transcript without words: nothing is asked of the API, whatever it
    would answer, and the summary written is empty. *)
Theorem summarizeText_no_words (inputPath outputPath transcript : string)
    (ratio : spec_float) (w : World) :
  w !! inputPath = Some transcript ->
  Fields transcript = [] ->
  summarizeText env apiKey model inputPath outputPath ratio w =
    if can_write env outputPath then (None, <[outputPath := ""]> w)
    else (Some (Wrap "写入摘要文件失败" (External "open: cannot create")),
          w).
Proof.
  intros Hw Hf.
  unfold summarizeText, Os.ReadFile, Os.WriteFile, run_goroutines.
  rewrite Hw. unfold splitTextIntoChunks. rewrite Hf.
  change (chunk_words [] 3000) with (@nil string).
  rewrite goroutines_no_chunks. cbn [errChan summaries].
  change (Join [] summary_separator) with "".
  rewrite write_result_empty.
  by destruct (can_write env outputPath).
Qed.

Lemma summarizeText_other_files (inputPath outputPath : string)
    (ratio : spec_float) (w : World) (path : string) :
  path <> outputPath ->
  (summarizeText env apiKey model inputPath outputPath ratio w).2 !! path =
    w !! path.
Proof.
  intros Hpath. unfold summarizeText, Os.ReadFile.
  destruct (w !! inputPath) as [transcript|]; [|done].
  destruct (errChan _); [|done].
  pose proof (WriteFile_other_files env w outputPath
                (Join (summaries
                         (run_goroutines env apiKey model (clamp_ratio ratio)
                            (splitTextIntoChunks transcript 3000)))
                   summary_separator) path Hpath) as Hother.
  by destruct (Os.WriteFile env w outputPath _) as [[err|] w'].
Qed.

(** The errors of the channel are those of the parts. *)
Lemma sent_errors_of_parts ratio chunks (order : list nat) err :
  In err (omap (sent_error env apiKey model ratio chunks) order) ->
  exists n cause, err = WrapPart n cause.
Proof.
  induction order as [|idx order IH]; [done|].
  cbn [omap list_omap]. unfold sent_error at 1.
  destruct (request_outcome _ _ _ _ _ idx) as [[cause|content]|]; try done.
  intros [<-|Hin]; [by eexists _, _ | by apply IH].
Qed.

(** [summarizeText] touches no file but its output.  When it returns an
    error other than that of the writing of the output, every file is as
    it was.  When the writing of the output fails, the output is as it
    was, or [os.WriteFile] had opened it, and so emptied it: it then
    holds the first bytes of the summary, those written before the
    failure, and what it held before is lost. *)
Theorem summarizeText_frame (inputPath outputPath : string)
    (ratio : spec_float) (w : World) :
  (forall path, path <> outputPath ->
     (summarizeText env apiKey model inputPath outputPath ratio w).2 !! path
       = w !! path) /\
  (forall err,
     (summarizeText env apiKey model inputPath outputPath ratio w).1 =
       Some err ->
     (forall cause, err <> Wrap "写入摘要文件失败" cause) ->
     (summarizeText env apiKey model inputPath outputPath ratio w).2 = w) /\
  (forall cause,
     (summarizeText env apiKey model inputPath outputPath ratio w).1 =
       Some (Wrap "写入摘要文件失败" cause) ->
     can_write env outputPath = false /\
     exists transcript,
       w !! inputPath = Some transcript /\
       ((summarizeText env apiKey model inputPath outputPath ratio w).2 = w \/
        exists n : nat,
          Z.of_nat n <
            len (Join (summaries
                         (run_goroutines env apiKey model (clamp_ratio ratio)
                            (splitTextIntoChunks transcript 3000)))
                   summary_separator) /\
          (summarizeText env apiKey model inputPath outputPath ratio w).2 =
            <[outputPath :=
                slice (Join (summaries
                               (run_goroutines env apiKey model
                                  (clamp_ratio ratio)
                                  (splitTextIntoChunks transcript 3000)))
                         summary_separator) 0 (Z.of_nat n)]> w)).
Proof.
  split; [intros path Hpath; by apply summarizeText_other_files|].
  unfold summarizeText, Os.ReadFile.
  destruct (w !! inputPath) as [transcript|]; [|by split].
  destruct (errChan _) as [|first rest] eqn:Hchan.
  - unfold Os.WriteFile, Os.write_result.
    destruct (can_write env outputPath); [by split|].
    destruct (write_stops env outputPath) as [n|].
    + destruct (Z.ltb_spec (Z.of_nat n)
                  (len (Join (summaries
                                (run_goroutines env apiKey model
                                   (clamp_ratio ratio)
                                   (splitTextIntoChunks transcript 3000)))
                          summary_separator))) as [Hlt|Hge]; cbn [fst snd].
      * split.
        -- intros err [= <-] Hother.
           by destruct (Hother (External "write: broken off")).
        -- intros cause _. split; [done|]. exists transcript.
           split; [done|]. right. by exists n.
      * split; [done|]. intros cause _. split; [done|].
        exists transcript. split; [done | by left].
    + cbn [fst snd]. split; [done|]. intros cause _. split; [done|].
      exists transcript. split; [done | by left].
  - cbn [fst snd]. split; [done|]. intros cause [= ->].
    rewrite run_goroutines_errChan in Hchan.
    destruct (sent_errors_of_parts (clamp_ratio ratio)
                (splitTextIntoChunks transcript 3000)
                (completion env
                   (length (splitTextIntoChunks transcript 3000)))
                (Wrap "写入摘要文件失败" cause)) as (n & c & Habs).
    + rewrite Hchan. by left.
    + discriminate Habs.
Qed.

(** When each goroutine ends once, [summarizeText] returns no error
    exactly when every request is answered with a first choice, none
    with an error, and the output can be written in full. *)
Theorem summarizeText_succeeds_iff (inputPath outputPath transcript : string)
    (ratio : spec_float) (w : World) :
  w !! inputPath = Some transcript ->
  fair_completion env (length (splitTextIntoChunks transcript 3000)) ->
  (summarizeText env apiKey model inputPath outputPath ratio w).1 = None <->
  (forall idx text,
     splitTextIntoChunks transcript 3000 !! idx = Some text ->
     exists content,
       chat env apiKey idx (chat_request model text (clamp_ratio ratio)) =
         inr content) /\
  can_write env outputPath = true.
Proof.
  intros Hw Hfair.
  set (chunks := splitTextIntoChunks transcript 3000) in *.
  unfold summarizeText, Os.ReadFile. rewrite Hw.
  fold chunks. rewrite run_goroutines_errChan.
  split.
  - destruct (omap (sent_error _ _ _ _ _) _) as [|e l] eqn:Hchan;
      [|discriminate].
    unfold Os.WriteFile, Os.write_result.
    destruct (can_write env outputPath).
    + intros _. split; [|done]. intros idx text Hidx.
      assert (In idx (completion env (length chunks))) as Hin.
      { apply fair_completion_In; [done|]. by apply lookup_lt_Some in Hidx. }
      pose proof (omap_nil_inv _ _ Hchan idx Hin) as Hnone.
      unfold sent_error, request_outcome in Hnone. rewrite Hidx in Hnone.
      destruct (chat env apiKey idx _) as [err|content]; [done|].
      by exists content.
    + destruct (write_stops env outputPath) as [n|]; [|discriminate].
      by destruct (_ <? _).
  - intros [Hall Hcan]. rewrite omap_none.
    + by rewrite WriteFile_full.
    + intros idx _. unfold sent_error, request_outcome.
      destruct (chunks !! idx) as [text|] eqn:Hidx; [|done].
      by destruct (Hall idx text Hidx) as [content ->].
Qed.

(** When each goroutine ends once, the errors sent are at most as many
    as the chunks: they never exceed the buffer of the channel, made for
    one error per chunk, so that no goroutine waits to send.  When no
    append has missed another, the errors sent and the fragments
    collected are together as many as the chunks. *)
Theorem outcomes_as_many_as_chunks (ratio : spec_float)
    (chunks : list string) :
  fair_completion env (length chunks) ->
  (length (errChan (run_goroutines env apiKey model ratio chunks)) <=
   length chunks)%nat /\
  ((forall idx, stale env idx = 0%nat) ->
   (length (errChan (run_goroutines env apiKey model ratio chunks)) +
    length (summaries (run_goroutines env apiKey model ratio chunks)) =
    length chunks)%nat).
Proof.
  intros Hfair.
  assert (length (omap (sent_error env apiKey model ratio chunks)
                    (completion env (length chunks))) +
          length (omap (fragment env apiKey model ratio chunks)
                    (completion env (length chunks))) =
          length chunks)%nat as Hcount.
  { rewrite outcomes_count.
    - by rewrite (Permutation_length Hfair), length_seq.
    - intros idx Hin. apply lookup_lt_is_Some.
      by apply (fair_completion_In _ _ Hfair). }
  rewrite run_goroutines_errChan. split; [lia|].
  intros Hstale. unfold run_goroutines at 1.
  rewrite goroutines_summaries_in_step by done. exact Hcount.
Qed.

(** When each goroutine ends once and no append has missed another, the
    fragments collected are the answers to the chunks, each once, in the
    order in which the goroutines ended, which need not be the order of
    the chunks. *)
Theorem fragments_are_the_answers (ratio : spec_float)
    (chunks : list string) :
  fair_completion env (length chunks) ->
  (forall idx, stale env idx = 0%nat) ->
  summaries (run_goroutines env apiKey model ratio chunks) =
    omap (fragment env apiKey model ratio chunks)
      (completion env (length chunks)) /\
  Permutation
    (summaries (run_goroutines env apiKey model ratio chunks))
    (omap (fragment env apiKey model ratio chunks)
       (seq 0 (length chunks))).
Proof.
  intros Hfair Hstale. unfold run_goroutines.
  rewrite goroutines_summaries_in_step by done.
  split; [done | by apply omap_Permutation].
Qed.

(** The append to [summaries] is not locked: of two goroutines that
    are both answered, the second to end may append to the slice as it
    was before the append of the first.  [summarizeText] then returns no
    error and writes the answer of the second alone: the summary of the
    first chunk is missing from the file, with no separator to show
    it. *)
Theorem stale_append_loses_fragment
    (inputPath outputPath transcript c0 c1 a0 a1 : string)
    (ratio : spec_float) (w : World) :
  w !! inputPath = Some transcript ->
  splitTextIntoChunks transcript 3000 = [c0; c1] ->
  completion env 2 = [0; 1]%nat ->
  chat env apiKey 0 (chat_request model c0 (clamp_ratio ratio)) = inr a0 ->
  chat env apiKey 1 (chat_request model c1 (clamp_ratio ratio)) = inr a1 ->
  stale env 1 = 1%nat ->
  can_write env outputPath = true ->
  summarizeText env apiKey model inputPath outputPath ratio w =
    (None, <[outputPath := a1]> w).
Proof.
  intros Hw Hchunks Horder H0 H1 Hstale Hcan.
  unfold summarizeText, Os.ReadFile. rewrite Hw, Hchunks.
  unfold run_goroutines. cbn [length]. rewrite Horder.
  cbn [fold_left]. unfold goroutine_end.
  cbn [lookup list_lookup]. rewrite H0.
  cbn [lookup list_lookup errChan summaries versions]. rewrite H1, Hstale.
  cbn [errChan summaries versions nth].
  rewrite WriteFile_full by done.
  by destruct (stale env 0) as [|[|k]].
Qed.

(** A transcript shorter than 3000 bytes, with a word in it, is one
    chunk: the file written is the answer to the one request, on the
    words of the transcript joined by single spaces, with no separator. *)
Theorem short_transcript_summary (inputPath outputPath transcript : string)
    (ratio : spec_float) (w : World) (content : string) :
  w !! inputPath = Some transcript ->
  len transcript < 3000 -> Fields transcript <> [] ->
  fair_completion env 1 ->
  chat env apiKey 0
    (chat_request model (Join (Fields transcript) " ") (clamp_ratio ratio)) =
    inr content ->
  can_write env outputPath = true ->
  summarizeText env apiKey model inputPath outputPath ratio w =
    (None, <[outputPath := content]> w).
Proof.
  intros Hw Hshort Hwords Hfair Hchat Hcan.
  unfold summarizeText, Os.ReadFile. rewrite Hw.
  assert (splitTextIntoChunks transcript 3000 =
            [Join (Fields transcript) " "]) as ->.
  { pose proof (FieldsFunc_weight transcript Utf8.IsSpace) as Hweight.
    fold (Fields transcript) in Hweight.
    unfold splitTextIntoChunks. apply chunk_words_fit; try done.
    - apply FieldsFunc_nonempty.
    - lia. }
  unfold run_goroutines. cbn [length].
  unfold fair_completion in Hfair. cbn [seq] in Hfair.
  apply Permutation_singleton_r in Hfair. rewrite Hfair.
  cbn [fold_left]. unfold goroutine_end.
  cbn [lookup list_lookup]. rewrite Hchat. cbn [errChan summaries versions].
  rewrite WriteFile_full by done.
  by destruct (stale env 0) as [|[|k]].
Qed.

End SummarizeProperties.

(** ** More on the default output paths *)

Section OutputPathProperties.
Import Filepath.

Lemma get_lt_Some (s : string) : forall i : nat,
  (i < String.length s)%nat -> exists c, String.get i s = Some c.
Proof.
  induction s as [|x s IH]; intros [|i] Hi; cbn in *; try lia.
  - by exists x.
  - apply IH. lia.
Qed.

(** After a name without dot or separator, [Ext] stops at the dot before
    it. *)
Lemma ext_loop_app_plain (s r : string) :
  plain_name r ->
  forall k : nat, (k <= String.length r)%nat ->
    ext_loop (s +:+ String "." r) (S (String.length s) + k) = String "." r.
Proof.
  intros Hplain. induction k as [|k IH]; intros Hk.
  - rewrite Nat.add_0_r. cbn [ext_loop].
    assert (String.get (String.length s) (s +:+ String "." r) =
              Some "."%char) as ->
      by (symmetry; apply (String.append_correct2 s (String "." r) 0)).
    change (IsPathSeparator ".") with false.
    change (Ascii.eqb "." ".") with true. cbn match.
    unfold slice, len.
    replace (Z.to_nat (Z.of_nat (String.length (s +:+ String "." r)) -
                       Z.of_nat (String.length s)))
      with (String.length (String "." r)).
    + rewrite Nat2Z.id. apply substring_app_r.
    + pose proof (len_app s (String "." r)) as H. unfold len in H. lia.
  - replace (S (String.length s) + S k)%nat
      with (S (S k + String.length s)) by lia.
    cbn [ext_loop].
    assert (String.get (S k + String.length s) (s +:+ String "." r) =
              String.get k r) as ->
      by (symmetry; apply (String.append_correct2 s (String "." r) (S k))).
    destruct (get_lt_Some r k ltac:(lia)) as [c Hc]. rewrite Hc.
    destruct (Hplain k c Hc) as [-> ->].
    replace (S k + String.length s)%nat
      with (S (String.length s) + k)%nat by lia.
    apply IH. lia.
Qed.

Lemma Ext_app_plain (s r : string) :
  plain_name r -> Ext (s +:+ String "." r) = String "." r.
Proof.
  intros Hplain. unfold Ext.
  replace (String.length (s +:+ String "." r))
    with (S (String.length s) + String.length r)%nat.
  - by apply ext_loop_app_plain.
  - pose proof (len_app s (String "." r)) as H. unfold len in H.
    cbn [String.length] in H. lia.
Qed.

Lemma plain_txt : plain_name "txt".
Proof. intros [|[|[|j]]] c; cbn; intros [= <-]; done. Qed.

(** What [Ext] has scanned holds neither dot nor separator. *)
Lemma ext_loop_scan (path : string) : forall n : nat,
  (forall (j : nat) c, (n <= j)%nat -> String.get j path = Some c ->
     IsPathSeparator c = false /\ Ascii.eqb c "." = false) ->
  ext_loop path n = "" \/
  exists i : nat,
    String.get i path = Some "."%char /\
    ext_loop path n =
      String.substring i (String.length path - i) path /\
    (forall (j : nat) c, (i < j)%nat -> String.get j path = Some c ->
       IsPathSeparator c = false /\ Ascii.eqb c "." = false).
Proof.
  induction n as [|i IH]; intros Hscan; cbn [ext_loop]; [by left|].
  destruct (String.get i path) as [c|] eqn:Hget; [|by left].
  destruct (IsPathSeparator c) eqn:Hsep; [by left|].
  destruct (Ascii.eqb_spec c ".") as [->|Hdot].
  - right. exists i. split; [done|]. split.
    + apply get_Some_lt in Hget. unfold slice, len. f_equal; lia.
    + intros j c Hj. apply Hscan. lia.
  - apply IH. intros j c' Hj Hc'.
    destruct (Nat.eq_dec j i) as [->|Hne].
    + rewrite Hget in Hc'. injection Hc' as <-. split; [done|].
      by apply Ascii.eqb_neq.
    + apply (Hscan j); [lia | done].
Qed.

(** The extension holds one dot, its first byte, and no separator. *)
Theorem Ext_one_dot (path rest : string) :
  Ext path = String "." rest -> plain_name rest.
Proof.
  unfold Ext. intros Hext.
  destruct (ext_loop_scan path (String.length path)) as
    [Hnil|(i & Hi & Heq & Hscan)].
  - intros j c Hj Hget. apply get_Some_lt in Hget. lia.
  - rewrite Hnil in Hext. discriminate Hext.
  - rewrite Heq in Hext. pose proof (get_Some_lt _ _ _ Hi) as Hlt.
    replace (String.length path - i)%nat
      with (S (String.length path - S i)) in Hext by lia.
    rewrite (substring_get _ _ _ _ Hi) in Hext. injection Hext as <-.
    intros j c Hget. pose proof (get_Some_lt _ _ _ Hget) as Hj.
    rewrite substring_length in Hj by lia.
    rewrite String.substring_correct1 in Hget by lia.
    apply (Hscan (j + S i)%nat); [lia | done].
Qed.

(** Without [-o], the output path of every subcommand has the extension
    ".txt". *)
Theorem default_output_extension (fl : Flags) :
  flag_o fl = "" ->
  Ext (generate_output fl) = ".txt" /\
  Ext (transcribe_output fl) = ".txt" /\
  Ext (summarize_output fl) = ".txt".
Proof.
  intros Ho. unfold generate_output, transcribe_output, summarize_output.
  rewrite Ho, !default_output_derived.
  split; [|split]; try apply (Ext_app_plain _ "txt" plain_txt).
  change ".summary.txt" with (".summary" +:+ ".txt").
  rewrite <- string_app_assoc. apply (Ext_app_plain _ "txt" plain_txt).
Qed.

(** Without [-o], [summarize] never writes over the file it reads. *)
Theorem summarize_output_not_input (fl : Flags) :
  flag_o fl = "" -> summarize_output fl <> flag_i fl.
Proof.
  intros Ho. unfold summarize_output.
  rewrite Ho, default_output_derived.
  pose proof (TrimSuffix_Ext (flag_i fl)) as Hsplit.
  set (stem := TrimSuffix (flag_i fl) (Ext (flag_i fl))) in *.
  intros Heq.
  assert (stem +:+ ".summary.txt" = stem +:+ Ext (flag_i fl)) as Heq'
    by (rewrite Hsplit; exact Heq).
  apply (inj (String.app stem)) in Heq'. symmetry in Heq'.
  rename Heq' into Hext.
  pose proof (Ext_one_dot _ _ Hext 7%nat "."%char eq_refl) as [_ Hdot].
  discriminate Hdot.
Qed.

(** Without [-o], [transcribe] and [generate] write over the file they
    read exactly when its extension is ".txt". *)
Theorem default_output_is_input_iff (fl : Flags) :
  flag_o fl = "" ->
  (transcribe_output fl = flag_i fl <-> Ext (flag_i fl) = ".txt") /\
  (generate_output fl = flag_i fl <-> Ext (flag_i fl) = ".txt").
Proof.
  intros Ho. unfold transcribe_output, generate_output.
  rewrite Ho, default_output_derived.
  pose proof (TrimSuffix_Ext (flag_i fl)) as Hsplit.
  set (stem := TrimSuffix (flag_i fl) (Ext (flag_i fl))) in *.
  assert (stem +:+ ".txt" = flag_i fl <-> Ext (flag_i fl) = ".txt") as H.
  { split.
    - intros Heq.
      assert (stem +:+ ".txt" = stem +:+ Ext (flag_i fl)) as Heq'
        by (rewrite Hsplit; exact Heq).
      by apply (inj (String.app stem)) in Heq'.
    - intros Heq. rewrite <- Heq. exact Hsplit. }
  by split.
Qed.

End OutputPathProperties.

(** ** More on the steps and the subcommands *)

Section CommandProperties.
Import Strings.

Context (env : Env) (config : Config).

Lemma prefix_app (d s : string) : String.prefix d (d +:+ s) = true.
Proof.
  induction d as [|a d IH]; [by destruct s|].
  rewrite string_app_cons. cbn [String.prefix].
  by destruct (ascii_dec a a).
Qed.

Lemma below_Join2 (dir name : string) :
  below dir (Filepath.Join2 dir name) = true.
Proof.
  unfold below, Filepath.Join2. rewrite <- string_app_assoc.
  apply prefix_app.
Qed.

Lemma RemoveAll_below (w : World) (dir path : string) :
  below dir path = true -> Os.RemoveAll w dir !! path = None.
Proof.
  intros Hb. unfold Os.RemoveAll. apply map_lookup_filter_None.
  right. intros bytes _. cbn. unfold below in Hb. by rewrite Hb.
Qed.

Lemma RemoveAll_other (w : World) (dir path : string) :
  below dir path = false -> Os.RemoveAll w dir !! path = w !! path.
Proof.
  intros Hb. unfold Os.RemoveAll.
  destruct (w !! path) as [bytes|] eqn:Hw.
  - apply map_lookup_filter_Some. split; [done|]. exact Hb.
  - apply map_lookup_filter_None. by left.
Qed.

Lemma extractAudio_frame (videoPath audioPath : string) (w : World) :
  forall path, path <> audioPath ->
    (extractAudio env videoPath audioPath w).2 !! path = w !! path.
Proof.
  intros path Hpath. unfold extractAudio.
  destruct (ffmpeg env videoPath _); [done|].
  cbn [snd]. by rewrite lookup_insert_ne.
Qed.

Lemma transcribeAudio_other_files
    (apiKey model audioPath outputPath : string) (w : World) (path : string) :
  path <> outputPath ->
  (transcribeAudio env apiKey model audioPath outputPath w).2 !! path =
    w !! path.
Proof.
  intros Hpath. unfold transcribeAudio, Os.ReadFile.
  destruct (w !! audioPath) as [audio|]; [|done].
  destruct (transcription env apiKey model audio) as [err|words]; [done|].
  destruct (Os.write_result env outputPath words); cbn [snd];
    by rewrite ?lookup_insert_ne.
Qed.

(** [transcribeAudio] touches no file but its output.  When it returns
    an error other than that of the writing of the transcription, every
    file is as it was; when the writing fails, [os.Create] had emptied
    the output, which holds the first bytes of the transcription, those
    written before the failure, and has lost what it held before.
    [transcribeAudio] returns no error only with the transcription of
    the audio file written at its output. *)
Theorem transcribeAudio_frame (apiKey model audioPath outputPath : string)
    (w : World) :
  (forall path, path <> outputPath ->
     (transcribeAudio env apiKey model audioPath outputPath w).2 !! path =
       w !! path) /\
  (forall err,
     (transcribeAudio env apiKey model audioPath outputPath w).1 =
       Some err ->
     (forall cause, err <> Wrap "写入转录文本失败" cause) ->
     (transcribeAudio env apiKey model audioPath outputPath w).2 = w) /\
  (forall cause,
     (transcribeAudio env apiKey model audioPath outputPath w).1 =
       Some (Wrap "写入转录文本失败" cause) ->
     exists audio words (n : nat),
       w !! audioPath = Some audio /\
       transcription env apiKey model audio = inr words /\
       Z.of_nat n < len words /\
       (transcribeAudio env apiKey model audioPath outputPath w).2 =
         <[outputPath := slice words 0 (Z.of_nat n)]> w) /\
  ((transcribeAudio env apiKey model audioPath outputPath w).1 = None ->
   exists audio words,
     w !! audioPath = Some audio /\
     transcription env apiKey model audio = inr words /\
     (transcribeAudio env apiKey model audioPath outputPath w).2 =
       <[outputPath := words]> w).
Proof.
  split; [intros path Hpath; by apply transcribeAudio_other_files|].
  unfold transcribeAudio, Os.ReadFile.
  destruct (w !! audioPath) as [audio|]; [|by repeat split].
  destruct (transcription env apiKey model audio) as [err|words] eqn:Htr;
    [by repeat split|].
  unfold Os.write_result.
  destruct (can_write env outputPath).
  { cbn [fst snd]. split; [done|]. split; [done|].
    intros _. by exists audio, words. }
  destruct (write_stops env outputPath) as [n|];
    [|by repeat split].
  destruct (Z.ltb_spec (Z.of_nat n) (len words)) as [Hlt|Hge];
    [|by repeat split].
  cbn [fst snd]. split; [|split; [|done]].
  - intros err [= <-] Hother.
    by destruct (Hother (External "write: broken off")).
  - intros cause _. by exists audio, words, n.
Qed.

(** [summarizeText] when every request is answered. *)
Lemma summarizeText_all_answered
    (apiKey model inputPath outputPath transcript : string)
    (ratio : spec_float) (w : World) :
  w !! inputPath = Some transcript ->
  (forall idx text,
     splitTextIntoChunks transcript 3000 !! idx = Some text ->
     exists content,
       chat env apiKey idx (chat_request model text (clamp_ratio ratio)) =
         inr content) ->
  can_write env outputPath = true ->
  summarizeText env apiKey model inputPath outputPath ratio w =
    (None,
     <[outputPath :=
         Join (summaries
                 (run_goroutines env apiKey model (clamp_ratio ratio)
                    (splitTextIntoChunks transcript 3000)))
           summary_separator]> w).
Proof.
  intros Hw Hall Hcan.
  unfold summarizeText, Os.ReadFile. rewrite Hw.
  rewrite run_goroutines_errChan, omap_none; [by rewrite WriteFile_full|].
  intros idx _. unfold sent_error, request_outcome.
  destruct (_ !! idx) as [text|] eqn:Hidx; [|done].
  by destruct (Hall idx text Hidx) as [content ->].
Qed.

(** Once its temporary directory is made, [generate] leaves no file
    below it, whether it succeeds or fails. *)
Theorem generate_removes_temporary_files (fl : Flags) (w : World)
    (tmpDir : string) :
  is_empty (flag_i fl) = false ->
  mkdir_temp env = inr tmpDir ->
  forall path, below tmpDir path = true ->
    (generateCommand env config fl w).2 !! path = None.
Proof.
  intros Hi Hdir path Hpath. unfold generateCommand. rewrite Hi, Hdir.
  destruct (extractAudio _ _ _ _) as [[err|] w1];
    [by apply RemoveAll_below|].
  destruct (transcribeAudio _ _ _ _ _ _) as [[err|] w2];
    [by apply RemoveAll_below|].
  destruct (summarizeText _ _ _ _ _ _ _) as [[err|] w3];
    by apply RemoveAll_below.
Qed.

(** [generate] leaves as it was every file that is neither its output
    nor below its temporary directory. *)
Theorem generate_frame (fl : Flags) (w : World) (path : string) :
  path <> generate_output fl ->
  (forall tmpDir, mkdir_temp env = inr tmpDir ->
     below tmpDir path = false) ->
  (generateCommand env config fl w).2 !! path = w !! path.
Proof.
  intros Hout Htmp. unfold generateCommand.
  destruct (is_empty (flag_i fl)); [done|].
  destruct (mkdir_temp env) as [err|tmpDir] eqn:Hdir; [done|].
  specialize (Htmp tmpDir eq_refl).
  assert (forall name, path <> Filepath.Join2 tmpDir name) as Hname.
  { intros name ->. rewrite below_Join2 in Htmp. discriminate Htmp. }
  pose proof (extractAudio_frame (flag_i fl)
                (Filepath.Join2 tmpDir "audio.mp3") w path (Hname _)) as H1.
  destruct (extractAudio _ _ _ _) as [[err|] w1]; cbn [snd] in H1.
  { change (Os.RemoveAll w1 tmpDir !! path = w !! path).
    by rewrite RemoveAll_other. }
  pose proof (transcribeAudio_other_files (OpenAIAPIKey config)
                (Model config) (Filepath.Join2 tmpDir "audio.mp3")
                (Filepath.Join2 tmpDir "transcript.txt") w1
                path (Hname _)) as H2.
  destruct (transcribeAudio _ _ _ _ _ _) as [[err|] w2]; cbn [snd] in H2.
  { change (Os.RemoveAll w2 tmpDir !! path = w !! path).
    rewrite RemoveAll_other by done. congruence. }
  pose proof (summarizeText_other_files env (OpenAIAPIKey config)
                (Model config) (Filepath.Join2 tmpDir "transcript.txt")
                (generate_output fl) (flag_ratio fl) w2 path Hout) as H3.
  destruct (summarizeText _ _ _ _ _ _ _) as [[err|] w3]; cbn [snd] in H3;
    change (Os.RemoveAll w3 tmpDir !! path = w !! path);
    rewrite RemoveAll_other by done; congruence.
Qed.

(** [generate] chains its three steps through the temporary files: when
    the transcoder and the transcription succeed, every request is
    answered with a first choice and the two files can be written in
    full, the summary written is the one of the transcription of the
    audio that the transcoder made: the fragments that the goroutines
    have collected for its chunks, joined by the separator, which are
    the answers in the order in which the goroutines ended when no
    append has missed another.  It is what is left at the output path
    when this path is not below the temporary directory. *)
Theorem generate_chains_the_steps (fl : Flags) (w : World)
    (tmpDir audio words : string) :
  is_empty (flag_i fl) = false ->
  mkdir_temp env = inr tmpDir ->
  ffmpeg env (flag_i fl) (w !! flag_i fl) = inr audio ->
  transcription env (OpenAIAPIKey config) (Model config) audio =
    inr words ->
  can_write env (Filepath.Join2 tmpDir "transcript.txt") = true ->
  (forall idx text,
     splitTextIntoChunks words 3000 !! idx = Some text ->
     exists content,
       chat env (OpenAIAPIKey config) idx
         (chat_request (Model config) text
            (clamp_ratio (flag_ratio fl))) = inr content) ->
  can_write env (generate_output fl) = true ->
  (generateCommand env config fl w).1 = None /\
  (below tmpDir (generate_output fl) = false ->
   (generateCommand env config fl w).2 !! generate_output fl =
     Some (Join (summaries
                   (run_goroutines env (OpenAIAPIKey config) (Model config)
                      (clamp_ratio (flag_ratio fl))
                      (splitTextIntoChunks words 3000)))
             summary_separator)) /\
  (below tmpDir (generate_output fl) = false ->
   (forall idx, stale env idx = 0%nat) ->
   (generateCommand env config fl w).2 !! generate_output fl =
     Some (Join (omap (fragment env (OpenAIAPIKey config) (Model config)
                         (clamp_ratio (flag_ratio fl))
                         (splitTextIntoChunks words 3000))
                   (completion env
                      (length (splitTextIntoChunks words 3000))))
             summary_separator)).
Proof.
  intros Hi Hdir Hffmpeg Hwords Hcan1 Hall Hcan2.
  unfold generateCommand. rewrite Hi, Hdir.
  unfold extractAudio. rewrite Hffmpeg.
  unfold transcribeAudio, Os.ReadFile.
  rewrite lookup_insert_eq, Hwords, write_result_full by done.
  rewrite (summarizeText_all_answered _ _ _ _ words);
    [|by rewrite lookup_insert_eq | done | done].
  cbn [fst snd]. split; [done|].
  assert (below tmpDir (generate_output fl) = false ->
          Os.RemoveAll
            (<[generate_output fl :=
                 Join (summaries
                         (run_goroutines env (OpenAIAPIKey config)
                            (Model config) (clamp_ratio (flag_ratio fl))
                            (splitTextIntoChunks words 3000)))
                   summary_separator]>
               (<[Filepath.Join2 tmpDir "transcript.txt" := words]>
                  (<[Filepath.Join2 tmpDir "audio.mp3" := audio]> w)))
            tmpDir !! generate_output fl =
          Some (Join (summaries
                        (run_goroutines env (OpenAIAPIKey config)
                           (Model config) (clamp_ratio (flag_ratio fl))
                           (splitTextIntoChunks words 3000)))
                  summary_separator)) as Hleft.
  { intros Hout. rewrite RemoveAll_other by done.
    by rewrite lookup_insert_eq. }
  split; [exact Hleft|]. intros Hout Hstale.
  rewrite (Hleft Hout). unfold run_goroutines.
  by rewrite goroutines_summaries_in_step.
Qed.

(** With [-i] given, [summarize] refuses exactly the ratios that
    [summarizeText] would change: past the check of [summarize], the
    clamp of [summarizeText] does nothing. *)
Theorem summarize_refuses_what_clamp_changes (fl : Flags) (w : World) :
  is_empty (flag_i fl) = false ->
  (summarizeCommand env config fl w).1 = Some ratio_error <->
  clamp_ratio (flag_ratio fl) <> flag_ratio fl.
Proof.
  intros Hi. unfold summarizeCommand. rewrite Hi.
  destruct (Float64.lt (flag_ratio fl) Float64.c0_1) eqn:Hlo.
  - cbn [orb fst]. split; [|done]. intros _ Heq.
    rewrite (clamp_ratio_lo _ Hlo) in Heq. rewrite <- Heq in Hlo.
    discriminate Hlo.
  - destruct (Float64.gt (flag_ratio fl) Float64.c0_5) eqn:Hhi.
    + cbn [orb fst]. split; [|done]. intros _ Heq.
      rewrite (clamp_ratio_hi _ Hhi) in Heq. rewrite <- Heq in Hhi.
      discriminate Hhi.
    + cbn [orb]. rewrite (clamp_ratio_id _ Hlo Hhi). split; [|done].
      destruct (summarizeText _ _ _ _ _ _ _) as [[err|] w']; discriminate.
Qed.

End CommandProperties.


(** ** The further properties at sample inputs *)

Section MoreWitnesses.
Import Strings.

Lemma chunks_are_runs_of_words_witness :
  len "a b c d" < GoInt.max_int /\
  exists groups,
    concat groups = Fields "a b c d" /\
    Forall (fun g => g <> []) groups /\
    splitTextIntoChunks "a b c d" 3 =
      (if first_overflows (Fields "a b c d") 3 then [""] else []) ++
      map (fun g => Join g " ") groups /\
    Forall (group_ok 3) groups /\
    greedy_groups 3 groups.
Proof.
  split; [reflexivity|].
  apply (chunks_are_runs_of_words "a b c d" 3). reflexivity.
Defined.

Lemma chunks_within_budget_witness :
  len "a b c d" < GoInt.max_int /\ 0 <= 3 /\
  Forall (chunk_ok 3 (Fields "a b c d")) (splitTextIntoChunks "a b c d" 3).
Proof.
  split; [reflexivity|]. split; [lia|].
  apply (chunks_within_budget "a b c d" 3); [reflexivity | lia].
Defined.

Lemma chunks_join_when_first_fits_witness :
  len "a b c d" < GoInt.max_int /\
  first_overflows (Fields "a b c d") 3 = false /\
  Join (splitTextIntoChunks "a b c d" 3) " " = Join (Fields "a b c d") " ".
Proof.
  split; [reflexivity|]. split; [reflexivity|].
  apply (chunks_join_when_first_fits "a b c d" 3); reflexivity.
Defined.

Lemma no_chunks_iff_no_words_witness :
  len "a b c d" < GoInt.max_int /\
  (splitTextIntoChunks "a b c d" 3 = [] <-> Fields "a b c d" = []).
Proof.
  split; [reflexivity|].
  apply (no_chunks_iff_no_words "a b c d" 3). reflexivity.
Defined.

Lemma short_text_one_chunk_witness :
  len "a b c d" < 3000 /\ 3000 <= GoInt.max_int /\
  Fields "a b c d" <> [] /\
  splitTextIntoChunks "a b c d" 3000 = [Join (Fields "a b c d") " "].
Proof.
  assert (Fields "a b c d" <> []) as Hwords
    by (vm_compute; discriminate).
  assert (3000 <= GoInt.max_int) as Hint
    by (unfold GoInt.max_int; lia).
  split; [reflexivity|]. split; [exact Hint|]. split; [exact Hwords|].
  apply (short_text_one_chunk "a b c d" 3000);
    [reflexivity | exact Hint | exact Hwords].
Defined.

Lemma empty_chunk_only_first_witness :
  len "xxxxx" < GoInt.max_int /\
  (forall i c, splitTextIntoChunks "xxxxx" 3 !! S i = Some c -> 0 < len c) /\
  (splitTextIntoChunks "xxxxx" 3 !! 0%nat = Some "" <->
   first_overflows (Fields "xxxxx") 3 = true).
Proof.
  split; [reflexivity|].
  apply (empty_chunk_only_first "xxxxx" 3). reflexivity.
Defined.

Lemma summarizeText_no_words_witness :
  Demo.blank_world !! "transcript.txt" = Some "  " /\
  Fields "  " = [] /\
  summarizeText Demo.env_failing "sk-test" "gpt-3.5-turbo" "transcript.txt"
    "transcript.summary.txt" Float64.c0_2 Demo.blank_world =
    (None, <["transcript.summary.txt" := ""]> Demo.blank_world).
Proof.
  split; [reflexivity|]. split; [reflexivity|].
  apply (summarizeText_no_words Demo.env_failing "sk-test" "gpt-3.5-turbo"
           "transcript.txt" "transcript.summary.txt" "  " Float64.c0_2
           Demo.blank_world); reflexivity.
Defined.

(** An API that refuses leaves the files as they are; a disk that fills
    up leaves five bytes of the summary where the notes of an earlier
    run were. *)
Lemma summarizeText_frame_witness :
  summarizeText Demo.env_failing "sk-test" "gpt-3.5-turbo" "transcript.txt"
    "notes.txt" Float64.c0_2 Demo.notes_world =
    (Some (WrapPart 1 (External "status code: 429")), Demo.notes_world) /\
  (summarizeText Demo.env_disk_full "sk-test" "gpt-3.5-turbo"
     "transcript.txt" "notes.txt" Float64.c0_2 Demo.notes_world).1 =
    Some (Wrap "写入摘要文件失败" (External "write: broken off")) /\
  (summarizeText Demo.env_disk_full "sk-test" "gpt-3.5-turbo"
     "transcript.txt" "notes.txt" Float64.c0_2 Demo.notes_world).2
    !! "notes.txt" = Some "summa" /\
  can_write Demo.env_disk_full "notes.txt" = false.
Proof.
  assert ((summarizeText Demo.env_failing "sk-test" "gpt-3.5-turbo"
             "transcript.txt" "notes.txt" Float64.c0_2 Demo.notes_world).1 =
          Some (WrapPart 1 (External "status code: 429"))) as Herr
    by reflexivity.
  assert ((summarizeText Demo.env_disk_full "sk-test" "gpt-3.5-turbo"
             "transcript.txt" "notes.txt" Float64.c0_2 Demo.notes_world).1 =
          Some (Wrap "写入摘要文件失败" (External "write: broken off")))
    as Hfull by reflexivity.
  split; [|split; [exact Hfull | split; [reflexivity|]]].
  - apply injective_projections; [exact Herr|].
    apply (proj1 (proj2 (summarizeText_frame Demo.env_failing "sk-test"
                           "gpt-3.5-turbo" "transcript.txt" "notes.txt"
                           Float64.c0_2 Demo.notes_world))
             (WrapPart 1 (External "status code: 429")) Herr).
    discriminate.
  - apply (proj2 (proj2 (summarizeText_frame Demo.env_disk_full "sk-test"
                           "gpt-3.5-turbo" "transcript.txt" "notes.txt"
                           Float64.c0_2 Demo.notes_world))
             (External "write: broken off") Hfull).
Defined.

Lemma summarizeText_succeeds_iff_witness :
  (summarizeText Demo.env_failing "sk-test" "gpt-3.5-turbo" "transcript.txt"
     "transcript.summary.txt" Float64.c0_2 Demo.world).1 = None <->
  (forall idx text,
     splitTextIntoChunks "a b c d" 3000 !! idx = Some text ->
     exists content,
       chat Demo.env_failing "sk-test" idx
         (chat_request "gpt-3.5-turbo" text (clamp_ratio Float64.c0_2)) =
         inr content) /\
  can_write Demo.env_failing "transcript.summary.txt" = true.
Proof.
  apply (summarizeText_succeeds_iff Demo.env_failing "sk-test"
           "gpt-3.5-turbo" "transcript.txt" "transcript.summary.txt"
           "a b c d" Float64.c0_2 Demo.world).
  - reflexivity.
  - unfold fair_completion. vm_compute. reflexivity.
Defined.

Lemma outcomes_as_many_as_chunks_witness :
  (length (errChan (run_goroutines Demo.env_failing "sk-test"
                      "gpt-3.5-turbo" Float64.c0_2 ["a b"; "c d"])) <=
   length ["a b"; "c d"])%nat /\
  (length (errChan (run_goroutines Demo.env_failing "sk-test"
                      "gpt-3.5-turbo" Float64.c0_2 ["a b"; "c d"])) +
   length (summaries (run_goroutines Demo.env_failing "sk-test"
                        "gpt-3.5-turbo" Float64.c0_2 ["a b"; "c d"])) =
   length ["a b"; "c d"])%nat.
Proof.
  destruct (outcomes_as_many_as_chunks Demo.env_failing "sk-test"
              "gpt-3.5-turbo" Float64.c0_2 ["a b"; "c d"]) as [Hcap Hall].
  - unfold fair_completion. vm_compute. reflexivity.
  - split; [exact Hcap|]. apply Hall. intros idx. reflexivity.
Defined.

Lemma fragments_are_the_answers_witness :
  summaries (run_goroutines Demo.env_ok "sk-test" "gpt-3.5-turbo"
               Float64.c0_2 ["a b"; "c d"]) =
    ["summary of a b"; "summary of c d"] /\
  Permutation
    (summaries (run_goroutines Demo.env_ok "sk-test" "gpt-3.5-turbo"
                  Float64.c0_2 ["a b"; "c d"]))
    (omap (fragment Demo.env_ok "sk-test" "gpt-3.5-turbo" Float64.c0_2
             ["a b"; "c d"]) (seq 0 (length ["a b"; "c d"]))).
Proof.
  split; [reflexivity|].
  apply (fragments_are_the_answers Demo.env_ok "sk-test" "gpt-3.5-turbo"
           Float64.c0_2 ["a b"; "c d"]).
  - unfold fair_completion. vm_compute. reflexivity.
  - intros idx. reflexivity.
Defined.

(** Two chunks, both answered, and an append that misses the other: the
    file holds one summary. *)
Lemma stale_append_loses_fragment_witness :
  exists c0 c1,
    splitTextIntoChunks Demo.long_transcript 3000 = [c0; c1] /\
    summarizeText Demo.env_racy "sk-test" "gpt-3.5-turbo" "transcript.txt"
      "transcript.summary.txt" Float64.c0_2 Demo.long_world =
      (None,
       <["transcript.summary.txt" := "summary of " +:+ c1]>
         Demo.long_world).
Proof.
  eexists _, _. split; [by vm_compute|].
  eapply (stale_append_loses_fragment Demo.env_racy "sk-test"
            "gpt-3.5-turbo" "transcript.txt" "transcript.summary.txt"
            Demo.long_transcript _ _ _ _ Float64.c0_2 Demo.long_world).
  - reflexivity.
  - by vm_compute.
  - reflexivity.
  - reflexivity.
  - reflexivity.
  - reflexivity.
  - reflexivity.
Defined.

Lemma short_transcript_summary_witness :
  summarizeText Demo.env_ok "sk-test" "gpt-3.5-turbo" "transcript.txt"
    "transcript.summary.txt" Float64.c0_2 Demo.world =
    (None, <["transcript.summary.txt" := "summary of a b c d"]> Demo.world).
Proof.
  apply (short_transcript_summary Demo.env_ok "sk-test" "gpt-3.5-turbo"
           "transcript.txt" "transcript.summary.txt" "a b c d" Float64.c0_2
           Demo.world "summary of a b c d").
  - reflexivity.
  - reflexivity.
  - vm_compute. discriminate.
  - unfold fair_completion. vm_compute. reflexivity.
  - reflexivity.
  - reflexivity.
Defined.

(** The recording is left as it is; a disk that fills up leaves five
    bytes of the transcription where an earlier transcript was. *)
Lemma transcribeAudio_frame_witness :
  "audio.mp3" <> "audio.txt" /\
  (transcribeAudio Demo.env_disk_full "sk-test" "whisper-1" "audio.mp3"
     "audio.txt" Demo.audio_world).2 !! "audio.mp3" =
    Demo.audio_world !! "audio.mp3" /\
  (transcribeAudio Demo.env_disk_full "sk-test" "whisper-1" "audio.mp3"
     "audio.txt" Demo.audio_world).1 =
    Some (Wrap "写入转录文本失败" (External "write: broken off")) /\
  (transcribeAudio Demo.env_disk_full "sk-test" "whisper-1" "audio.mp3"
     "audio.txt" Demo.audio_world).2 !! "audio.txt" = Some "words" /\
  exists audio words (n : nat),
    Demo.audio_world !! "audio.mp3" = Some audio /\
    transcription Demo.env_disk_full "sk-test" "whisper-1" audio =
      inr words /\
    Z.of_nat n < len words /\
    (transcribeAudio Demo.env_disk_full "sk-test" "whisper-1" "audio.mp3"
       "audio.txt" Demo.audio_world).2 =
      <["audio.txt" := slice words 0 (Z.of_nat n)]> Demo.audio_world.
Proof.
  assert ("audio.mp3" <> "audio.txt") as Hne by discriminate.
  assert ((transcribeAudio Demo.env_disk_full "sk-test" "whisper-1"
             "audio.mp3" "audio.txt" Demo.audio_world).1 =
          Some (Wrap "写入转录文本失败" (External "write: broken off")))
    as Hfull by reflexivity.
  split; [exact Hne|]. split.
  { apply (proj1 (transcribeAudio_frame Demo.env_disk_full "sk-test"
                    "whisper-1" "audio.mp3" "audio.txt" Demo.audio_world)).
    exact Hne. }
  split; [exact Hfull|]. split; [reflexivity|].
  apply (proj1 (proj2 (proj2 (transcribeAudio_frame Demo.env_disk_full
                                "sk-test" "whisper-1" "audio.mp3"
                                "audio.txt" Demo.audio_world)))
           (External "write: broken off") Hfull).
Defined.

Lemma generate_removes_temporary_files_witness :
  (generateCommand Demo.env_ok Demo.config Demo.video_flags
     Demo.video_world).2 !! "/tmp/video-note-1/transcript.txt" = None.
Proof.
  apply (generate_removes_temporary_files Demo.env_ok Demo.config
           Demo.video_flags Demo.video_world "/tmp/video-note-1");
    reflexivity.
Defined.

Lemma generate_frame_witness :
  (generateCommand Demo.env_ok Demo.config Demo.video_flags
     Demo.video_world).2 !! "video.mp4" = Demo.video_world !! "video.mp4".
Proof.
  apply (generate_frame Demo.env_ok Demo.config Demo.video_flags
           Demo.video_world "video.mp4").
  - discriminate.
  - intros tmpDir [= <-]. reflexivity.
Defined.

Lemma generate_chains_the_steps_witness :
  (generateCommand Demo.env_ok Demo.config Demo.video_flags
     Demo.video_world).1 = None /\
  (generateCommand Demo.env_ok Demo.config Demo.video_flags
     Demo.video_world).2 !! generate_output Demo.video_flags =
    Some "summary of words of audio".
Proof.
  destruct (generate_chains_the_steps Demo.env_ok Demo.config
              Demo.video_flags Demo.video_world "/tmp/video-note-1"
              "audio" "words of audio") as (Hnil & Hfile & _).
  - reflexivity.
  - reflexivity.
  - reflexivity.
  - reflexivity.
  - reflexivity.
  - intros idx text _. eexists. reflexivity.
  - reflexivity.
  - split; [exact Hnil|]. rewrite Hfile; reflexivity.
Defined.

Lemma summarize_refuses_what_clamp_changes_witness :
  (summarizeCommand Demo.env_ok Demo.config (Demo.flags Demo.ratio_zero)
     Demo.world).1 = Some ratio_error <->
  clamp_ratio (flag_ratio (Demo.flags Demo.ratio_zero)) <>
    flag_ratio (Demo.flags Demo.ratio_zero).
Proof.
  apply (summarize_refuses_what_clamp_changes Demo.env_ok Demo.config
           (Demo.flags Demo.ratio_zero) Demo.world).
  reflexivity.
Defined.

Lemma default_output_extension_witness :
  Filepath.Ext (generate_output Demo.video_flags) = ".txt" /\
  Filepath.Ext (transcribe_output Demo.video_flags) = ".txt" /\
  Filepath.Ext (summarize_output Demo.video_flags) = ".txt".
Proof. apply (default_output_extension Demo.video_flags). reflexivity. Defined.

Lemma summarize_output_not_input_witness :
  summarize_output (Demo.flags Float64.c0_2) <>
    flag_i (Demo.flags Float64.c0_2).
Proof.
  apply (summarize_output_not_input (Demo.flags Float64.c0_2)). reflexivity.
Defined.

Lemma default_output_is_input_iff_witness :
  (transcribe_output (Demo.flags Float64.c0_2) =
     flag_i (Demo.flags Float64.c0_2) <->
   Filepath.Ext (flag_i (Demo.flags Float64.c0_2)) = ".txt") /\
  (generate_output (Demo.flags Float64.c0_2) =
     flag_i (Demo.flags Float64.c0_2) <->
   Filepath.Ext (flag_i (Demo.flags Float64.c0_2)) = ".txt").
Proof.
  apply (default_output_is_input_iff (Demo.flags Float64.c0_2)).
  reflexivity.
Defined.

Lemma Ext_one_dot_witness :
  Filepath.Ext "video.mp4" = String "." "mp4" /\ plain_name "mp4".
Proof.
  split; [reflexivity|].
  apply (Ext_one_dot "video.mp4" "mp4"). reflexivity.
Defined.

End MoreWitnesses.
